(** * Verification of the onboarding / reprocessing backend

    Shallow embedding of the category-discovery agent
    ([daily-soft-category-agent.js]), the job-status store
    ([lib/syncStatus.js]), the reprocess and stop routes
    ([routes/reprocess.js]) and the onboarding handlers
    ([routes/onboarding.js] and its API-key variant).

    The numbers of the discovery scorer are IEEE-754 doubles, as the
    kernel's primitive floats, so that its rounding is the engine's;
    timestamps are milliseconds since the epoch, as [Z]. *)

From Stdlib Require Import Ascii String List ZArith NArith QArith Qpower Qminmax Lia.
From Stdlib Require Import Permutation Sorted Lqa Floats.
Import ListNotations.
Open Scope string_scope.
(* The scorer's constants 0.3 and 0.2 are rounded to the nearest double,
   as a JavaScript engine reads them. *)
Set Warnings "-inexact-float".

(* ------------------------------------------------------------------ *)
(** ** Generic helpers: [Array.prototype.includes], [Array.prototype.sort] *)

(** [arr.includes(s)] on an array of strings. *)
Definition includes (arr : list string) (s : string) : bool :=
  existsb (String.eqb s) arr.

(** [s.includes(sub)] on strings. *)
Fixpoint includes_sub (s sub : string) : bool :=
  String.prefix sub s ||
  match s with
  | EmptyString => false
  | String _ s' => includes_sub s' sub
  end.

(** The comparator result [v] of [sort] is "positive": [a] goes after
    [b]. A NaN result counts as +0. *)
Definition js_pos (v : float) : bool := (0 <? v)%float.

Section JsSort.
Context {A : Type}.
Variable cmp : A -> A -> float.

(** Insert [x], which precedes every element of the list in the input,
    before the first element it does not have to follow. *)
Fixpoint js_insert (x : A) (l : list A) : list A :=
  match l with
  | [] => [x]
  | y :: ys => if js_pos (cmp x y) then y :: js_insert x ys else x :: y :: ys
  end.

(** [arr.sort(cmp)]: ECMAScript requires a stable sort; any stable sort
    with a consistent comparator yields the same array, so insertion sort
    is used. *)
Fixpoint js_sort (l : list A) : list A :=
  match l with
  | [] => []
  | x :: xs => js_insert x (js_sort xs)
  end.
End JsSort.

(** The comparator [(a, b) => b.score - a.score]. *)
Definition by_score_desc {A : Type} (score : A -> float) (a b : A) : float :=
  (score b - score a)%float.

(** [arr.filter(item => item !== null)] after a [map] that may yield null. *)
Fixpoint keep_some {A : Type} (l : list (option A)) : list A :=
  match l with
  | [] => []
  | Some a :: r => a :: keep_some r
  | None :: r => keep_some r
  end.

(** [arr.map(f)] with a callback that may throw ([None]): the call throws
    as soon as one element does. *)
Fixpoint map_or_throw {A B : Type} (f : A -> option B) (l : list A)
    : option (list B) :=
  match l with
  | [] => Some []
  | x :: xs =>
    match f x, map_or_throw f xs with
    | Some y, Some ys => Some (y :: ys)
    | _, _ => None
    end
  end.

(** ** Doubles *)

(** The exact value of a finite double; infinities and NaN read as 0. *)
Definition sf_val (x : spec_float) : Q :=
  match x with
  | S754_finite s m e => inject_Z (cond_Zopp s (Zpos m)) * Qpower (2#1) e
  | _ => 0
  end.

Definition float_value (x : float) : Q := sf_val (Prim2SF x).

Definition sf_finite (x : spec_float) : bool :=
  match x with S754_zero _ | S754_finite _ _ _ => true | _ => false end.

(** The sign of a double that is not zero or NaN. *)
Definition sf_signed (s : bool) (x : spec_float) : Prop :=
  match x with
  | S754_finite s' _ _ | S754_infinity s' => s' = s
  | _ => False
  end.

(** [Number(t)] for an integer [t], as the time value of a [Date]: the
    nearest double (exact below 2^53). *)
Definition float_of_Z (z : Z) : float :=
  SF2Prim (binary_normalize prec emax z 0 false).

(** A number's truthiness: every number but [+0], [-0] and NaN. *)
Definition num_truthy (x : float) : bool :=
  negb (PrimFloat.is_zero x || PrimFloat.is_nan x).

(** [Math.max(x, y)]: NaN if either is NaN; [+0] above [-0]. *)
Definition js_max (x y : float) : float :=
  if PrimFloat.is_nan x || PrimFloat.is_nan y then nan
  else if (x <? y)%float then y
  else if (y <? x)%float then x
  else if get_sign x then y else x.

(** [Math.min(x, y)]: NaN if either is NaN; [-0] below [+0]. *)
Definition js_min (x y : float) : float :=
  if PrimFloat.is_nan x || PrimFloat.is_nan y then nan
  else if (x <? y)%float then x
  else if (y <? x)%float then y
  else if get_sign x then x else y.

(* ------------------------------------------------------------------ *)
(** ** Category discovery agent *)
Module Discovery.

(** One entry of [credentials.potentialSoftCategories] that is not
    [null]: absent fields are [None]; a value that is not an object (a
    number, a string) has none of them. Dates are time values. *)
Record observation := {
  obs_count : option float;
  obs_firstSeen : option Z;
  obs_lastSeen : option Z
}.

(** [Object.entries(potentialCategories)], in enumeration order; an entry
    whose value is [null] or [undefined] is [None]. *)
Definition potential := list (string * option observation).

Definition day : Z := 1000 * 60 * 60 * 24.

(** [1000 * 60 * 60 * 24], evaluated in doubles. *)
Definition ms_per_day : float := (1000 * 60 * 60 * 24)%float.

(** [credentials.softCategories || []], once not falsy: an array of
    terms, a non-empty string, or any other truthy value (a number,
    [true], a plain object). *)
Inductive soft_value :=
| SoftArray (l : list string)
| SoftString (s : string)
| SoftOther.

(** [credentials.softCategories || []]; [None] is an absent or falsy
    field. *)
Definition soft_or_empty (o : option soft_value) : soft_value :=
  match o with
  | None | Some (SoftString EmptyString) => SoftArray []
  | Some v => v
  end.

(** [existing.includes(term)]: membership in an array, a substring test
    on a string, and a TypeError ([None]) on any other value, which has
    no [includes] method. *)
Definition soft_includes (v : soft_value) (term : string) : option bool :=
  match v with
  | SoftArray l => Some (includes l term)
  | SoftString s => Some (includes_sub s term)
  | SoftOther => None
  end.

(** [[...existing]]: the elements of an array, the characters of a
    string. It is only evaluated after [existing.includes] succeeded,
    which a [SoftOther] value never does. *)
Definition spread (v : soft_value) : list string :=
  match v with
  | SoftArray l => l
  | SoftString s => map (fun c => String c EmptyString) (list_ascii_of_string s)
  | SoftOther => []
  end.

(** [existing.length], evaluated on the same values as [spread]. *)
Definition soft_length (v : soft_value) : nat :=
  match v with
  | SoftArray l => length l
  | SoftString s => String.length s
  | SoftOther => 0
  end.

(** The terms of [credentials.softCategories || []], as spread into the
    payload. *)
Definition opt_list (o : option soft_value) : list string :=
  spread (soft_or_empty o).

(** [credentials.categories || []] and [credentials.type || []]. *)
Definition or_empty (o : option (list string)) : list string :=
  match o with Some l => l | None => [] end.

(** The object built in [fallbackCategorySelection]'s [map]. *)
Record scored := {
  sc_term : string;
  sc_count : float;
  sc_lastSeen : Z;
  sc_firstSeen : Z;
  sc_recencyScore : float;
  sc_persistenceScore : float;
  sc_totalScore : float
}.

(** The object returned by the [map] callback past its [includes] guard,
    for an entry that is not [null]. *)
Definition scored_of (now : Z) (term : string) (data : observation) : scored :=
  let count :=
    match obs_count data with
    | Some c => if num_truthy c then c else 0%float
    | None => 0%float
    end in
  let lastSeen := match obs_lastSeen data with Some t => t | None => now end in
  let firstSeen := match obs_firstSeen data with Some t => t | None => now end in
  let daysSinceLastSeen :=
    ((float_of_Z now - float_of_Z lastSeen) / ms_per_day)%float in
  let recencyScore := js_max 0 (100 - daysSinceLastSeen)%float in
  let daysActive :=
    ((float_of_Z lastSeen - float_of_Z firstSeen) / ms_per_day)%float in
  let persistenceScore := js_min 100 (daysActive * 2)%float in
  let totalScore :=
    ((count * 0.5) + (recencyScore * 0.3) + (persistenceScore * 0.2))%float in
  {| sc_term := term; sc_count := count; sc_lastSeen := lastSeen;
     sc_firstSeen := firstSeen; sc_recencyScore := recencyScore;
     sc_persistenceScore := persistenceScore; sc_totalScore := totalScore |}.

(** The [map] callback of [fallbackCategorySelection]: [Some None] is its
    [null]; it throws ([None]) when [includes] does, or when it reads
    [data.count] of a [null] entry. *)
Definition score_entry (now : Z) (existingSoftCategories : soft_value)
    (e : string * option observation) : option (option scored) :=
  let (term, data) := e in
  match soft_includes existingSoftCategories term with
  | None => None
  | Some true => Some None
  | Some false =>
    match data with
    | None => None
    | Some d => Some (Some (scored_of now term d))
    end
  end.

(** [fallbackCategorySelection(potentialCategories, existing, maxTerms)];
    [now] is [new Date()]; [None] when it throws. *)
Definition fallbackCategorySelection (now : Z) (potentialCategories : potential)
    (existingSoftCategories : soft_value) (maxTerms : nat) : option (list string) :=
  match map_or_throw (score_entry now existingSoftCategories) potentialCategories with
  | None => None
  | Some mapped =>
    let scored :=
      firstn maxTerms
        (js_sort (fun a b => (sc_totalScore b - sc_totalScore a)%float)
           (keep_some mapped)) in
    Some (map sc_term scored)
  end.

(** What [callGeminiJSON] produces for the ranking prompt: the parsed JSON
    (its [selectedTerms] field, absent or present), or a thrown error
    (network failure, empty reply, unparsable JSON). *)
Inductive oracle_reply :=
| OracleJSON (selectedTerms : option (list string))
| OracleError.

Definition is_null_entry (e : string * option observation) : bool :=
  match snd e with None => true | Some _ => false end.

(** [analyzePotentialCategories]; [ai] is [isAIAvailable()], [None] a
    thrown error. Inside its [try], building [categoryData] reads
    [data.count] of every entry and building the prompt calls
    [existing.join], which only an array has; either failure, like a
    failed oracle call, lands in the [catch], which calls the fallback
    scorer outside any [try]. *)
Definition analyzePotentialCategories (ai : bool) (reply : oracle_reply)
    (now : Z) (potentialCategories : potential)
    (existingSoftCategories : soft_value) (maxTerms : nat) : option (list string) :=
  let fallback :=
    fallbackCategorySelection now potentialCategories existingSoftCategories maxTerms in
  if negb ai then fallback else
  if existsb is_null_entry potentialCategories then fallback else
  match existingSoftCategories with
  | SoftArray _ =>
    match reply with
    | OracleJSON sel => Some (match sel with Some ts => ts | None => [] end)
    | OracleError => fallback
    end
  | _ => fallback
  end.

(** The fields of a user document read by [processSingleUser]. *)
Record user := {
  u_dbName : string;
  u_potentialSoftCategories : option potential;
  u_softCategories : option soft_value;
  u_categories : option (list string);
  u_type : option (list string)
}.

(** The payload handed to [reprocessProducts]. *)
Record reprocess_payload := {
  p_dbName : string;
  p_categories : list string;
  p_userTypes : list string;
  p_softCategories : list string;
  p_incrementalSoftCategories : list string
}.

(** How [processSingleUser] settles: its result object, or a rejection
    ([Threw]) by an error thrown outside any [try]. *)
Inductive user_result :=
| Skipped (reason : string)
| Success (selectedTerms : list string) (payload : reprocess_payload)
          (previousCount newCount : nat)
| Threw.

(** The [forEach] that builds [filteredPotential]: [None] when
    [existing.includes] throws. *)
Fixpoint filter_new (existingSoftCategories : soft_value) (pc : potential)
    : option potential :=
  match pc with
  | [] => Some []
  | (term, data) :: rest =>
    match soft_includes existingSoftCategories term,
          filter_new existingSoftCategories rest with
    | Some b, Some r => Some (if b then r else (term, data) :: r)
    | _, _ => None
    end
  end.

(** [processSingleUser(user)]. [reprocessProducts(payload)] is launched
    without [await]; an async function cannot throw synchronously, so the
    [catch] branch around it is unreachable. *)
Definition processSingleUser (ai : bool) (reply : oracle_reply) (now : Z)
    (u : user) : user_result :=
  match u_potentialSoftCategories u with
  | None => Skipped "no_potential_categories"
  | Some potentialCategories =>
    let existingSoftCategories := soft_or_empty (u_softCategories u) in
    match filter_new existingSoftCategories potentialCategories with
    | None => Threw
    | Some filteredPotential =>
      if Nat.eqb (length filteredPotential) 0 then Skipped "no_new_terms" else
      match analyzePotentialCategories ai reply now filteredPotential
                                       existingSoftCategories 5 with
      | None => Threw
      | Some selectedTerms =>
        if Nat.eqb (length selectedTerms) 0 then Skipped "no_suitable_terms" else
        let payload := {|
          p_dbName := u_dbName u;
          p_categories := or_empty (u_categories u);
          p_userTypes := or_empty (u_type u);
          p_softCategories := spread existingSoftCategories ++ selectedTerms;
          p_incrementalSoftCategories := selectedTerms |} in
        Success selectedTerms payload (soft_length existingSoftCategories)
                (soft_length existingSoftCategories + length selectedTerms)
      end
    end
  end.





(** The [totalScore] the code computes for an entry ([NaN] for a [null]
    one, which is never scored). *)
Definition entry_score (now : Z) (e : string * option observation) : float :=
  match snd e with
  | Some o => sc_totalScore (scored_of now (fst e) o)
  | None => nan
  end.

(** The object the [map] callback builds for a non-[null] entry (a
    [null] entry, on which it throws, reads here as an empty object). *)
Definition entry_scored (now : Z) (e : string * option observation) : scored :=
  scored_of now (fst e)
    (match snd e with
     | Some o => o
     | None => {| obs_count := None; obs_firstSeen := None; obs_lastSeen := None |}
     end).

(** Whether the [includes] guard of the [map] callback lets an entry
    through. *)
Definition kept (existingSoftCategories : soft_value)
    (e : string * option observation) : bool :=
  match soft_includes existingSoftCategories (fst e) with
  | Some true => false
  | _ => true
  end.

(** The score of §4.4 of the design, written from its words, in exact
    arithmetic: [0.5×count + 0.3×max(0, 100 − daysSince(lastSeen))
    + 0.2×min(100, daysBetween(firstSeen, lastSeen) × 2)], an absent count
    read as 0 and absent dates as [now]. *)
Definition spec_totalScore (now : Z) (o : observation) : Q :=
  let count := match obs_count o with Some c => float_value c | None => 0 end in
  let lastSeen := match obs_lastSeen o with Some t => t | None => now end in
  let firstSeen := match obs_firstSeen o with Some t => t | None => now end in
  let daysSince := inject_Z (now - lastSeen) / inject_Z day in
  let daysBetween := inject_Z (lastSeen - firstSeen) / inject_Z day in
  (1#2) * count + (3#10) * Qmax 0 (100 - daysSince)
  + (2#10) * Qmin 100 (daysBetween * 2).

(** An observation used by the concrete scenarios below. *)
Definition obs1 : option observation :=
  Some {| obs_count := Some 1%float; obs_firstSeen := Some 0%Z;
          obs_lastSeen := Some 0%Z |}.

(** A user with one new potential term. *)
Definition user1 : user :=
  {| u_dbName := "shop"; u_potentialSoftCategories := Some [("new1", obs1)];
     u_softCategories := Some (SoftArray []); u_categories := None;
     u_type := None |}.

End Discovery.

(* ------------------------------------------------------------------ *)
(** ** Job status store ([lib/syncStatus.js]) *)
Module Jobs.

(** A [sync_status] document. [updatedAt] is absent in the synthesized
    default of [getJobState]. *)
Record job_record := {
  jr_state : string;
  jr_progress : Z;
  jr_done : Z;
  jr_total : Z;
  jr_updatedAt : option Z
}.

(** The [sync_status] collections, one per database, each queried with
    [{ dbName }]. *)
Definition store := string -> option job_record.

Definition empty_store : store := fun _ => None.

(** [setJobState(dbName, state, progress = 0, done = 0, total = 0)]:
    an upsert with [$set], stamped with [new Date()] = [now]. *)
Definition setJobState (s : store) (now : Z) (dbName state : string)
    (progress done total : Z) : store :=
  fun k => if String.eqb k dbName
           then Some {| jr_state := state; jr_progress := progress;
                        jr_done := done; jr_total := total;
                        jr_updatedAt := Some now |}
           else s k.

Inductive result (A : Type) :=
| Ok (a : A)
| Throw (err : string).
Arguments Ok {A} a.
Arguments Throw {A} err.

Definition default_record : job_record :=
  {| jr_state := "idle"; jr_progress := 0; jr_done := 0; jr_total := 0;
     jr_updatedAt := None |}.

(** [getJobState(dbName)]; [connected] is whether [await clientPromise]
    and [findOne] succeed (their failure is rethrown). *)
Definition getJobState (connected : bool) (s : store) (dbName : string)
    : result job_record :=
  if connected then
    match s dbName with
    | Some status => Ok status
    | None => Ok default_record
    end
  else Throw "MongoServerSelectionError".

End Jobs.

(* ------------------------------------------------------------------ *)
(** ** Reprocess and stop routes ([routes/reprocess.js]) *)
Module Reprocess.
Import Jobs.

(** The shared state the routes touch: the job records, the lock files of
    [os.tmpdir()], the background runs launched and not yet finished (by
    database name), and the products of each database (the work items a
    reprocessing pass covers). *)
Record sys := {
  jobs : store;
  locks : list string;
  pending : list string;
  products : string -> list string
}.

Definition lockFilePath (dbName : string) : string :=
  "reprocessing_" ++ dbName ++ ".lock".

Inductive response :=
| RespMessage (status : Z) (message : string)
| RespError (status : Z) (error : string).

(** [reprocessProducts(payload)] in [lib/reprocess-products.js]: only
    logs, touches neither the products, the job record nor the lock. *)
Definition reprocessProducts (dbName : string) : result unit := Ok tt.

(** [POST /api/reprocess] (authenticated variant) for a user whose
    [dbName] is [db]: a missing or empty [dbName] is answered with 400;
    otherwise [setJobState(dbName, "running")], then the background run
    is launched without [await]. *)
Definition reprocess_post (now : Z) (db : option string) (st : sys)
    : response * sys :=
  match db with
  | None => (RespError 400 "missing dbName", st)
  | Some dbName =>
    if String.eqb dbName "" then (RespError 400 "missing dbName", st) else
    (RespMessage 200 "Reprocessing started in background",
     {| jobs := setJobState (jobs st) now dbName "running" 0 0 0;
        locks := locks st;
        pending := dbName :: pending st;
        products := products st |})
  end.

Fixpoint remove_first (x : string) (l : list string) : list string :=
  match l with
  | [] => []
  | y :: ys => if String.eqb x y then ys else y :: remove_first x ys
  end.

(** [fs.unlink(path)] on an existing file. *)
Definition unlink (path : string) (files : list string) : list string :=
  filter (fun f => negb (String.eqb path f)) files.

(** [processReprocessInBackground(payload)] resumed until it returns:
    [await reprocessProducts(payload)], then [setJobState(dbName, "done")],
    or [setJobState(dbName, "error")] in the [catch]. *)
Definition processReprocessInBackground (now : Z) (dbName : string) (st : sys)
    : sys :=
  let jobs' :=
    match reprocessProducts dbName with
    | Ok _ => setJobState (jobs st) now dbName "done" 0 0 0
    | Throw _ => setJobState (jobs st) now dbName "error" 0 0 0
    end in
  {| jobs := jobs'; locks := locks st;
     pending := remove_first dbName (pending st);
     products := products st |}.

(** [POST /api/reprocess/stop], authenticated variant. [fs.access] and
    [fs.unlink] succeed on an existing lock file and fail with [ENOENT]
    on a missing one; [persist_ok] is whether [setJobState] succeeds.
    An error of [setJobState] lands in the inner [catch], has no
    [ENOENT] code, is rethrown and answered with 500. *)
Definition stop_post (now : Z) (persist_ok : bool) (dbName : string) (st : sys)
    : response * sys :=
  let lock := lockFilePath dbName in
  if existsb (String.eqb lock) (locks st) then
    let st1 := {| jobs := jobs st; locks := unlink lock (locks st);
                  pending := pending st; products := products st |} in
    if persist_ok then
      (RespMessage 200 "Stop signal sent successfully. Processing will halt after current product.",
       {| jobs := setJobState (jobs st1) now dbName "stopped" 0 0 0;
          locks := locks st1; pending := pending st1;
          products := products st1 |})
    else (RespError 500 "setJobState failed", st1)
  else (RespMessage 200 "Process already stopped or finished.", st).

(** [POST /stop], the unauthenticated variant taking [dbName] from the
    body. *)
Definition stop_post_body (body_dbName : option string) (st : sys)
    : response * sys :=
  match body_dbName with
  | None => (RespError 400 "dbName is required", st)
  | Some dbName =>
    if String.eqb dbName "" then (RespError 400 "dbName is required", st) else
    let lock := lockFilePath dbName in
    if existsb (String.eqb lock) (locks st) then
      (RespMessage 200 "Stop signal sent.",
       {| jobs := jobs st; locks := unlink lock (locks st);
          pending := pending st; products := products st |})
    else (RespMessage 200 "Process already stopped or finished.", st)
  end.

(** Requests and completions, in the order the event loop runs them. *)
Inductive event :=
| EvReprocess (dbName : string)
| EvStop (persist_ok : bool) (dbName : string)
| EvFinish (dbName : string).

Definition step (now : Z) (st : sys) (ev : event) : sys :=
  match ev with
  | EvReprocess db => snd (reprocess_post now (Some db) st)
  | EvStop ok db => snd (stop_post now ok db st)
  | EvFinish db => processReprocessInBackground now db st
  end.

Definition run_events (now : Z) (st : sys) (evs : list event) : sys :=
  fold_left (step now) evs st.

(** A database with one product, no job record and no lock file. *)
Definition st0 : sys :=
  {| jobs := empty_store; locks := []; pending := [];
     products := fun _ => ["p1"] |}.

End Reprocess.

(* ------------------------------------------------------------------ *)
(** ** JavaScript values, as read from request bodies and user documents *)
Module Json.

Set Warnings "-register-all".
Inductive jsval :=
| JUndefined
| JNull
| JBool (b : bool)
| JNum (z : Z)
| JStr (s : string)
| JDate (t : Z)
| JArr (l : list jsval)
| JObj (fields : list (string * jsval)).

(** JavaScript truthiness. *)
Definition truthy (v : jsval) : bool :=
  match v with
  | JUndefined | JNull => false
  | JBool b => b
  | JNum z => negb (Z.eqb z 0)
  | JStr s => negb (String.eqb s "")
  | JDate _ | JArr _ | JObj _ => true
  end.

(** [a || b] *)
Definition js_or (a b : jsval) : jsval := if truthy a then a else b.

(** [a ?? b] *)
Definition js_nullish (a b : jsval) : jsval :=
  match a with JUndefined | JNull => b | _ => a end.

Definition is_undefined (v : jsval) : bool :=
  match v with JUndefined => true | _ => false end.

(** [a === b] on primitive values; arrays and objects are compared by
    identity, and a fresh one is never identical to a stored one. *)
Definition strict_eqb (a b : jsval) : bool :=
  match a, b with
  | JUndefined, JUndefined | JNull, JNull => true
  | JBool x, JBool y => Bool.eqb x y
  | JNum x, JNum y => Z.eqb x y
  | JStr x, JStr y => String.eqb x y
  | _, _ => false
  end.

(** A document, or a plain object: its fields in insertion order. *)
Definition obj := list (string * jsval).

(** [o.k]; a missing field reads as [undefined]. *)
Definition get (o : obj) (k : string) : jsval :=
  match find (fun kv => String.eqb (fst kv) k) o with
  | Some kv => snd kv
  | None => JUndefined
  end.

(** [o?.k] on any value. *)
Definition getv (v : jsval) (k : string) : jsval :=
  match v with JObj o => get o k | _ => JUndefined end.

(** [o.k = v]: overwrite the field in place, or append it. *)
Fixpoint set (o : obj) (k : string) (v : jsval) : obj :=
  match o with
  | [] => [(k, v)]
  | (k', v') :: r => if String.eqb k' k then (k, v) :: r else (k', v') :: set r k v
  end.

(** MongoDB [$set] with the fields of [upd], in order. *)
Definition set_all (o : obj) (upd : obj) : obj :=
  fold_left (fun acc kv => set acc (fst kv) (snd kv)) upd o.

(** A [users] collection. *)
Definition collection := list obj.

(** [findOne({ k: v })]: the first document whose field [k] equals [v]. *)
Definition findOne (c : collection) (k : string) (v : jsval) : option obj :=
  find (fun d => strict_eqb (get d k) v) c.

(** [updateOne({ k: v }, { $set: upd }, { upsert: true })]. *)
Fixpoint update_first (k : string) (v : jsval) (upd : obj) (c : collection)
    : option collection :=
  match c with
  | [] => None
  | d :: r =>
    if strict_eqb (get d k) v then Some (set_all d upd :: r)
    else option_map (cons d) (update_first k v upd r)
  end.

Definition upsert (c : collection) (k : string) (v : jsval) (upd : obj)
    : collection :=
  match update_first k v upd c with
  | Some c' => c'
  | None => (c ++ [set_all [(k, v)] upd])%list
  end.

End Json.

(* ------------------------------------------------------------------ *)
(** ** Onboarding handlers ([POST /api/onboarding]) *)
Module Onboarding.
Import Json.

(** The values of the external calls one request makes: [new Date()],
    [validateShopifyCredentials]/[validateWooCredentials], the three
    index-creation calls, and the sync pipeline. Persistence calls
    ([findOne], [updateOne], [setJobState]) succeed. *)
Record env := {
  now : Z;
  credentials_valid : bool;
  indexes_ok : bool;
  sync_ok : bool;
  generated_key : string
}.

(** The HTTP status, the [users] collection afterwards and the
    [setJobState(dbName, state)] calls made, in order. *)
Record outcome := {
  o_status : Z;
  o_users : collection;
  o_job_writes : list (jsval * string)
}.

(** The [let] bindings of the handler. *)
Record fields := {
  f_platform : jsval; f_shopifyDomain : jsval; f_shopifyToken : jsval;
  f_wooUrl : jsval; f_wooKey : jsval; f_wooSecret : jsval;
  f_dbName : jsval; f_categories : jsval; f_syncMode : jsval;
  f_type : jsval; f_context : jsval; f_explain : jsval;
  f_softCategories : jsval; f_userEmail : jsval
}.

(** First-time onboarding: everything from the body; the API-key
    variant also takes [userEmail] from the [x-user-email] header. *)
Definition body_fields (body : obj) (userEmail : jsval) : fields :=
  {| f_platform := get body "platform";
     f_shopifyDomain := get body "shopifyDomain";
     f_shopifyToken := get body "shopifyToken";
     f_wooUrl := get body "wooUrl"; f_wooKey := get body "wooKey";
     f_wooSecret := get body "wooSecret";
     f_dbName := get body "dbName"; f_categories := get body "categories";
     f_syncMode := get body "syncMode"; f_type := get body "type";
     f_context := get body "context"; f_explain := get body "explain";
     f_softCategories := get body "softCategories";
     f_userEmail := userEmail |}.

(** Re-onboarding ([isReOnboarding && existingUser]): stored values as
    defaults, the body overriding some of them. *)
Definition reonboard_fields (body : obj) (existingUser : obj) : fields :=
  let creds := get existingUser "credentials" in
  let platform := js_or (get existingUser "platform")
                    (if truthy (getv creds "wooUrl") then JStr "woocommerce"
                     else JStr "shopify") in
  let shopify := strict_eqb platform (JStr "shopify") in
  {| f_userEmail := get existingUser "email";
     f_dbName := js_or (get existingUser "dbName") (getv creds "dbName");
     f_platform := platform;
     f_syncMode := js_or (js_or (get body "syncMode") (get existingUser "syncMode"))
                         (JStr "full");
     f_categories := js_or (js_or (get body "categories") (getv creds "categories"))
                           (JArr []);
     f_type := js_or (js_or (get body "type") (getv creds "type")) (JArr []);
     f_softCategories :=
       js_or (js_or (get body "softCategories") (getv creds "softCategories"))
             (JArr []);
     f_context := js_or (get body "context") (get existingUser "context");
     f_explain := if negb (is_undefined (get body "explain"))
                  then get body "explain" else get existingUser "explain";
     f_shopifyDomain := if shopify
       then js_or (get body "shopifyDomain") (getv creds "shopifyDomain")
       else JUndefined;
     f_shopifyToken := if shopify
       then js_or (get body "shopifyToken") (getv creds "shopifyToken")
       else JUndefined;
     f_wooUrl := if shopify then JUndefined
       else js_or (get body "wooUrl") (getv creds "wooUrl");
     f_wooKey := if shopify then JUndefined
       else js_or (get body "wooKey") (getv creds "wooKey");
     f_wooSecret := if shopify then JUndefined
       else js_or (get body "wooSecret") (getv creds "wooSecret") |}.

(** Step 3: [Some status] for an early [return], [None] to go on. *)
Definition validate_platform (ev : env) (f : fields) : option Z :=
  if strict_eqb (f_platform f) (JStr "shopify") then
    if negb (truthy (f_shopifyDomain f)) || negb (truthy (f_shopifyToken f))
    then Some 401%Z
    else if credentials_valid ev then None else Some 401%Z
  else if strict_eqb (f_platform f) (JStr "woocommerce") then
    if negb (truthy (f_wooUrl f)) || negb (truthy (f_wooKey f))
       || negb (truthy (f_wooSecret f))
    then Some 401%Z
    else if credentials_valid ev then None else Some 401%Z
  else Some 400%Z.

Definition credentials_of (f : fields) : jsval :=
  if strict_eqb (f_platform f) (JStr "shopify") then
    JObj [("shopifyDomain", f_shopifyDomain f); ("shopifyToken", f_shopifyToken f);
          ("categories", f_categories f); ("dbName", f_dbName f);
          ("type", f_type f); ("softCategories", f_softCategories f)]
  else
    JObj [("wooUrl", f_wooUrl f); ("wooKey", f_wooKey f);
          ("wooSecret", f_wooSecret f); ("categories", f_categories f);
          ("dbName", f_dbName f); ("type", f_type f);
          ("softCategories", f_softCategories f)].

(** [updateData] without its leading fields; the trial fields are added
    only when [isFirstTimeOnboarding]. *)
Definition update_tail (ev : env) (f : fields) (isFirst : bool) : obj :=
  ([("credentials", credentials_of f); ("onboardingComplete", JBool true);
   ("dbName", f_dbName f); ("platform", f_platform f);
   ("syncMode", f_syncMode f); ("context", f_context f);
   ("explain", js_nullish (f_explain f) (JBool false));
   ("updatedAt", JDate (now ev))]
  ++ (if isFirst then [("trialStartedAt", JDate (now ev));
                       ("trialStatus", JStr "active")] else []))%list.

(** [!existingUser?.onboardingComplete] *)
Definition first_time (existingUser : option obj) : bool :=
  negb (truthy (match existingUser with
                | Some u => get u "onboardingComplete"
                | None => JUndefined end)).

(** Steps 4 (indexes) and 5 (job state, sync) after the upsert. *)
Definition after_upsert (ev : env) (dbName : jsval) (users : collection)
    : outcome :=
  if negb (indexes_ok ev) then
    {| o_status := 500; o_users := users; o_job_writes := [] |}
  else if sync_ok ev then
    {| o_status := 200; o_users := users;
       o_job_writes := [(dbName, "running"); (dbName, "done")] |}
  else
    {| o_status := 500; o_users := users;
       o_job_writes := [(dbName, "running"); (dbName, "error")] |}.

Definition early (status : Z) (users : collection) : outcome :=
  {| o_status := status; o_users := users; o_job_writes := [] |}.

(** [routes/onboarding.js]: [router.post('/')]. *)
Definition onboard (ev : env) (body : obj) (users : collection) : outcome :=
  let f := body_fields body (get body "userEmail") in
  if negb (truthy (f_dbName f)) then early 400 users else
  if negb (truthy (f_userEmail f)) then early 400 users else
  match validate_platform ev f with
  | Some status => early status users
  | None =>
    let existingUser := findOne users "email" (f_userEmail f) in
    let isFirst := first_time existingUser in
    let users' := upsert users "email" (f_userEmail f) (update_tail ev f isFirst) in
    after_upsert ev (f_dbName f) users'
  end.

(** The API-key variant of [router.post('/')]. [apiKey] is a [const];
    the assignment [apiKey = ...] under [if (!apiKey)] throws a
    [TypeError], which the outer [catch] answers with 500. *)
Definition onboard_apikey (ev : env) (hdrApiKey queryApiKey headerEmail : jsval)
    (body : obj) (users : collection) : outcome :=
  let apiKey := js_or hdrApiKey queryApiKey in
  let existing0 := if truthy apiKey then findOne users "apiKey" apiKey else None in
  let f := match existing0 with
           | Some u => reonboard_fields body u
           | None => body_fields body (js_or (get body "userEmail") headerEmail)
           end in
  if negb (truthy (f_dbName f)) then early 400 users else
  if negb (truthy (f_userEmail f)) then early 400 users else
  match validate_platform ev f with
  | Some status => early status users
  | None =>
    let existingUser := match existing0 with
                        | Some u => Some u
                        | None => findOne users "email" (f_userEmail f)
                        end in
    let isFirst := first_time existingUser in
    if negb (truthy apiKey) then early 500 users else
    let upd := ([("email", f_userEmail f); ("apiKey", apiKey)]
               ++ update_tail ev f isFirst)%list in
    let users' := upsert users "email" (f_userEmail f) upd in
    after_upsert ev (f_dbName f) users'
  end.

(** The two variants of the handler, as one request type. *)
Inductive request :=
| ReqPlain (ev : env) (body : obj)
| ReqApiKey (ev : env) (hdrApiKey queryApiKey headerEmail : jsval) (body : obj).

Definition handle (r : request) (users : collection) : outcome :=
  match r with
  | ReqPlain ev body => onboard ev body users
  | ReqApiKey ev h q he body => onboard_apikey ev h q he body users
  end.

(** The [users] collections produced from an empty one by onboarding
    requests only. *)
Inductive reachable : collection -> Prop :=
| reach_nil : reachable []
| reach_step (r : request) (users : collection) :
    reachable users -> reachable (o_users (handle r users)).

(** The [trialStartedAt] of the record [findOne({ email })] returns. *)
Definition trial_of (users : collection) (email : string) : jsval :=
  match findOne users "email" (JStr email) with
  | Some d => get d "trialStartedAt"
  | None => JUndefined
  end.

(** A completed onboarding is on record for [email]:
    [existingUser?.onboardingComplete] is truthy. *)
Definition completed (users : collection) (email : string) : bool :=
  negb (first_time (findOne users "email" (JStr email))).

(** Every record has a truthy [onboardingComplete]. *)
Definition all_complete (users : collection) : Prop :=
  Forall (fun d => truthy (get d "onboardingComplete") = true) users.

(** Fixtures for the concrete scenarios. *)
Definition ev_ok : env :=
  {| now := 0; credentials_valid := true; indexes_ok := true;
     sync_ok := true; generated_key := "k0" |}.

Definition shopify_body : obj :=
  [("platform", JStr "shopify"); ("shopifyDomain", JStr "s.myshopify.com");
   ("shopifyToken", JStr "tok"); ("dbName", JStr "shop");
   ("userEmail", JStr "u@x")].

Definition stored_user : obj :=
  [("email", JStr "u@x"); ("apiKey", JStr "k1"); ("dbName", JStr "shop");
   ("platform", JStr "shopify"); ("syncMode", JStr "full");
   ("onboardingComplete", JBool true);
   ("credentials", JObj [("shopifyDomain", JStr "s.myshopify.com");
                         ("shopifyToken", JStr "tok");
                         ("categories", JArr [JStr "a"; JStr "b"])])].

End Onboarding.

(* ------------------------------------------------------------------ *)
(** ** Scheduler ([lib/scheduler.js]) *)
Module Scheduler.

Definition msPerDay : Z := 86400000.

(** ECMAScript [TimeClip]: a time value beyond 8.64e15 ms either side
    of the epoch is [NaN], here [None]. *)
Definition TimeClip (t : Z) : option Z :=
  if Z.leb (Z.abs t) 8640000000000000 then Some t else None.

(** [d.setUTCHours(h, m, s, ms)] on the valid time value [t]:
    [MakeDate(Day(t), MakeTime(h, m, s, ms))], with
    [Day(t) = floor(t / msPerDay)]. *)
Definition setUTCHours (t h m s ms : Z) : option Z :=
  TimeClip ((t / msPerDay) * msPerDay + (((h * 60 + m) * 60 + s) * 1000 + ms)).

(** [d.setUTCDate(d.getUTCDate() + 1)]: [MakeDay] carries into the next
    month or year, so in UTC this is one day later. *)
Definition nextUTCDate (t : Z) : option Z := TimeClip (t + msPerDay).

(** [getNextRunTime()] at [new Date()] = [now]; [None] is an invalid date,
    on which [toISOString] throws a [RangeError]. The ISO string is
    represented by its time value. *)
Definition getNextRunTime (now : Z) : option Z :=
  match setUTCHours now 2 0 0 0 with
  | None => None
  | Some next => if Z.leb next now then nextUTCDate next else Some next
  end.

End Scheduler.

(* ------------------------------------------------------------------ *)
(** ** API keys ([generateApiKey] of the API-key onboarding variant) *)
Module ApiKey.

(** A nibble as a lowercase hexadecimal digit. *)
Definition hex_digit (n : N) : ascii :=
  ascii_of_N (if N.ltb n 10 then (48 + n)%N else (87 + n)%N).

Definition byte_hex (b : Byte.byte) : string :=
  String (hex_digit (Byte.to_N b / 16)) (String (hex_digit (Byte.to_N b mod 16)) EmptyString).

(** [buf.toString('hex')] *)
Fixpoint toString_hex (bs : list Byte.byte) : string :=
  match bs with
  | [] => EmptyString
  | b :: r => byte_hex b ++ toString_hex r
  end.

(** [generateApiKey()]: [crypto.randomBytes(32).toString('hex')]; the
    argument is the buffer [randomBytes] returned. *)
Definition generateApiKey (randomBytes : list Byte.byte) : string :=
  toString_hex randomBytes.

Definition is_lower_hex (c : ascii) : bool :=
  let n := nat_of_ascii c in
  (Nat.leb 48 n && Nat.leb n 57) || (Nat.leb 97 n && Nat.leb n 102).

Fixpoint all_chars (p : ascii -> bool) (s : string) : bool :=
  match s with
  | EmptyString => true
  | String c r => p c && all_chars p r
  end.

(** The value of a lowercase hexadecimal digit, and of a two-digit
    string: the inverse of [byte_hex], used by the proofs. *)
Definition hex_value (c : ascii) : option N :=
  let n := N_of_ascii c in
  if N.leb 48 n && N.leb n 57 then Some (n - 48)%N
  else if N.leb 97 n && N.leb n 102 then Some (n - 87)%N
  else None.

Definition byte_of_hex (s : string) : option Byte.byte :=
  match s with
  | String c1 (String c2 EmptyString) =>
    match hex_value c1, hex_value c2 with
    | Some h, Some l => Byte.of_N (16 * h + l)
    | _, _ => None
    end
  | _ => None
  end.

End ApiKey.

(* ------------------------------------------------------------------ *)
(** ** Shopify credential check ([validateShopifyCredentials]) *)
Module ShopifyCheck.
Import Json.

(** [s] without the prefix [p], if [s] starts with it. *)
Fixpoint strip_prefix (p s : string) : option string :=
  match p, s with
  | EmptyString, _ => Some s
  | String c p', String d s' => if Ascii.eqb c d then strip_prefix p' s' else None
  | String _ _, EmptyString => None
  end.

(** [s.replace(/^https?:\/\//, '')]: the optional [s] is greedy. *)
Definition strip_protocol (s : string) : string :=
  match strip_prefix "https://" s with
  | Some r => r
  | None => match strip_prefix "http://" s with Some r => r | None => s end
  end.

(** [s.replace(/\/$/, '')]: one trailing slash. *)
Fixpoint strip_trailing_slash (s : string) : string :=
  match s with
  | EmptyString => EmptyString
  | String c EmptyString => if Ascii.eqb c "/"%char then EmptyString else s
  | String c r => String c (strip_trailing_slash r)
  end.

Definition is_alnum (c : ascii) : bool :=
  let n := nat_of_ascii c in
  (Nat.leb 48 n && Nat.leb n 57) || (Nat.leb 65 n && Nat.leb n 90)
  || (Nat.leb 97 n && Nat.leb n 122).

Definition is_label_char (c : ascii) : bool := is_alnum c || Ascii.eqb c "-"%char.

(** [[a-zA-Z0-9-]*\.myshopify\.com$] from the current position: the
    class excludes ['.'], so the split of the string is unique. *)
Fixpoint label_tail_then_suffix (s : string) : bool :=
  String.eqb s ".myshopify.com" ||
  match s with
  | EmptyString => false
  | String c r => is_label_char c && label_tail_then_suffix r
  end.

(** [/^[a-zA-Z0-9][a-zA-Z0-9-]*\.myshopify\.com$/.test(s)] *)
Definition shopify_domain_ok (s : string) : bool :=
  match s with
  | EmptyString => false
  | String c r => is_alnum c && label_tail_then_suffix r
  end.

(** The shop names that pattern admits before [.myshopify.com]. *)
Fixpoint label_rest_ok (s : string) : bool :=
  match s with
  | EmptyString => true
  | String c r => is_label_char c && label_rest_ok r
  end.

Definition shop_label_ok (s : string) : bool :=
  match s with
  | EmptyString => false
  | String c r => is_alnum c && label_rest_ok r
  end.

(** What [fetch(url, ...)] does: it rejects (network or TLS error), or
    resolves with [response.ok] and whether
    [JSON.parse(await response.text())] succeeds. *)
Inductive fetch_reply :=
| FetchThrows
| FetchReply (ok : bool) (body_is_json : bool).

Definition shop_json_path : string := "/admin/api/2023-10/shop.json".

(** [validateShopifyCredentials(domain, token)]: the result, and the URL
    fetched, if any. A truthy [domain] that is not a string has no
    [replace] method: the [TypeError] is caught and [false] returned. *)
Definition validateShopifyCredentials (domain token : jsval) (reply : fetch_reply)
    : bool * option string :=
  if negb (truthy domain) || negb (truthy token) then (false, None) else
  match domain with
  | JStr d =>
    let cleanDomain0 := strip_trailing_slash (strip_protocol d) in
    let cleanDomain :=
      if includes_sub cleanDomain0 ".myshopify.com" then cleanDomain0
      else cleanDomain0 ++ ".myshopify.com" in
    if negb (shopify_domain_ok cleanDomain) then (false, None) else
    let url := "https://" ++ cleanDomain ++ shop_json_path in
    (match reply with
     | FetchThrows => false
     | FetchReply ok json => ok && json
     end, Some url)
  | _ => (false, None)
  end.

End ShopifyCheck.

(* ------------------------------------------------------------------ *)
(** ** Job status route ([GET /api/onboarding/status]) *)
Module StatusRoute.
Import Jobs.

Inductive status_response :=
| StatusBadRequest
| StatusDbError
| StatusOk (state : string) (progress done total : Z).

(** [GET /status?dbName=...] of [routes/onboarding.js]; [q] is the
    [dbName] query parameter, [connected] whether the database answers.
    [status?.state || "idle"], [status?.progress || 0], ... *)
Definition status_get (connected : bool) (s : store) (q : option string)
    : status_response :=
  match q with
  | None => StatusBadRequest
  | Some dbName =>
    if String.eqb dbName "" then StatusBadRequest else
    if negb connected then StatusDbError else
    match s dbName with
    | Some st =>
      StatusOk (if String.eqb (jr_state st) "" then "idle" else jr_state st)
               (if Z.eqb (jr_progress st) 0 then 0 else jr_progress st)
               (if Z.eqb (jr_done st) 0 then 0 else jr_done st)
               (if Z.eqb (jr_total st) 0 then 0 else jr_total st)
    | None => StatusOk "idle" 0 0 0
    end
  end.

End StatusRoute.

(* ------------------------------------------------------------------ *)
(** ** Authentication middleware ([middleware/auth.js], three variants) *)
Module Auth.
Import Json.

Inductive auth_result :=
| AuthReject (status : Z) (error : string)
| AuthNext (user : jsval).   (* [next()], with [req.user] *)

(** The [req.user] object built from the record [u]. *)
Definition req_user_of (u : obj) (dbName platform : jsval) : jsval :=
  JObj [("email", get u "email"); ("apiKey", get u "apiKey");
        ("platform", platform); ("dbName", dbName);
        ("credentials", get u "credentials"); ("syncMode", get u "syncMode");
        ("context", get u "context"); ("explain", get u "explain");
        ("onboardingComplete", get u "onboardingComplete");
        ("trialStatus", get u "trialStatus");
        ("trialStartedAt", get u "trialStartedAt")].

(** The lookup common to the three variants: [x-api-key] header or
    [api_key] query parameter, then [findOne({ apiKey })]; [connected]
    is whether the database answers. *)
Definition lookup_user (hdrApiKey queryApiKey : jsval) (connected : bool)
    (users : collection) (k : obj -> auth_result) : auth_result :=
  let apiKey := js_or hdrApiKey queryApiKey in
  if negb (truthy apiKey) then AuthReject 401 "API key required" else
  if negb connected then AuthReject 500 "Authentication failed" else
  match findOne users "apiKey" apiKey with
  | None => AuthReject 401 "Invalid API key"
  | Some user => k user
  end.

(** [user.dbName || user.credentials?.dbName] *)
Definition resolved_dbName (u : obj) : jsval :=
  js_or (get u "dbName") (getv (get u "credentials") "dbName").

(** [user.platform || (creds?.wooUrl ? 'woocommerce'
    : creds?.shopifyDomain ? 'shopify' : undefined)] *)
Definition resolved_platform (u : obj) : jsval :=
  let creds := get u "credentials" in
  js_or (get u "platform")
        (if truthy (getv creds "wooUrl") then JStr "woocommerce"
         else if truthy (getv creds "shopifyDomain") then JStr "shopify"
         else JUndefined).

(** First variant: the record's own [dbName] and [platform]. *)
Definition authenticateRequest_v1 (hdrApiKey queryApiKey : jsval)
    (connected : bool) (users : collection) : auth_result :=
  lookup_user hdrApiKey queryApiKey connected users
    (fun u => AuthNext (req_user_of u (get u "dbName") (get u "platform"))).

(** Second variant: the resolved [dbName] and [platform]. *)
Definition authenticateRequest_v2 (hdrApiKey queryApiKey : jsval)
    (connected : bool) (users : collection) : auth_result :=
  lookup_user hdrApiKey queryApiKey connected users
    (fun u => AuthNext (req_user_of u (resolved_dbName u) (resolved_platform u))).

(** Third variant: [OPTIONS] passes without [req.user]; the resolved
    values are computed and logged, but [req.user] gets
    [user.dbName] and [user.platform]. *)
Definition authenticateRequest_v3 (method : string) (hdrApiKey queryApiKey : jsval)
    (connected : bool) (users : collection) : auth_result :=
  if String.eqb method "OPTIONS" then AuthNext JUndefined else
  lookup_user hdrApiKey queryApiKey connected users
    (fun u =>
       let dbName := resolved_dbName u in
       let platform := resolved_platform u in
       AuthNext (req_user_of u (get u "dbName") (get u "platform"))).

End Auth.

(* ------------------------------------------------------------------ *)
(** ** Incremental soft categories in [POST /api/reprocess] *)
Module Incremental.
Import Json.

(** [new Set(arr)] iterated back into an array: the elements in order of
    first occurrence, compared with SameValueZero, which on these values
    is [===] (an array or object is only the same as itself, and no two
    elements of parsed JSON are the same object). *)
Fixpoint dedupe_from (seen : list jsval) (l : list jsval) : list jsval :=
  match l with
  | [] => []
  | x :: r =>
    if existsb (strict_eqb x) seen then dedupe_from seen r
    else x :: dedupe_from (x :: seen) r
  end.

(** [[...new Set([...finalSoftCategories, ...incrementalSoftCategories])]]
    on two arrays. *)
Definition merge_soft_categories (final incremental : list jsval) : list jsval :=
  dedupe_from [] (final ++ incremental).

(** [usersCollection.updateOne({ dbName }, { $set: { softCategories:
    mergedCategories } })], without upsert; [connected] is whether it
    succeeds (a failure is logged and ignored). *)
Definition incremental_user_update (connected : bool) (dbName : jsval)
    (merged : list jsval) (users : collection) : collection :=
  if connected then
    match update_first "dbName" dbName [("softCategories", JArr merged)] users with
    | Some users' => users'
    | None => users
    end
  else users.

(** Two user documents that agree on every field but [softCategories]. *)
Definition same_but_soft (d d' : obj) : Prop :=
  forall k, k <> "softCategories" -> get d' k = get d k.

End Incremental.

(* ------------------------------------------------------------------ *)
(** ** Job status route of the API-key variant *)
Module KeyedStatus.
Import Json Jobs Auth.

Inductive keyed_status_response :=
| KReject (status : Z) (error : string)     (* answered by [authenticateRequest] *)
| KMissingDbName                             (* 400 ["missing dbName"] *)
| KDbError                                   (* 500 ["Database error"] *)
| KStatus (state : string) (progress done total : Z)
          (email platform onboardingComplete : jsval).

(** [router.get('/status', authenticateRequest, ...)] of the API-key
    variant, once the middleware has answered [auth]; [connected] is
    whether the database answers. Reading [req.user.dbName] throws when
    there is no [req.user], and [client.db] throws on a name that is not
    a string: both end in the [catch]. *)
Definition status_get_keyed (auth : auth_result) (connected : bool) (s : store)
    : keyed_status_response :=
  match auth with
  | AuthReject st e => KReject st e
  | AuthNext (JObj _ as u) =>
    let dbName := getv u "dbName" in
    if negb (truthy dbName) then KMissingDbName else
    match dbName with
    | JStr d =>
      if negb connected then KDbError else
      let user := (getv u "email", getv u "platform", getv u "onboardingComplete") in
      match s d with
      | Some st =>
        KStatus (if String.eqb (jr_state st) "" then "idle" else jr_state st)
                (if Z.eqb (jr_progress st) 0 then 0 else jr_progress st)
                (if Z.eqb (jr_done st) 0 then 0 else jr_done st)
                (if Z.eqb (jr_total st) 0 then 0 else jr_total st)
                (fst (fst user)) (snd (fst user)) (snd user)
      | None => KStatus "idle" 0 0 0 (fst (fst user)) (snd (fst user)) (snd user)
      end
    | _ => KDbError
    end
  | AuthNext _ => KDbError
  end.

End KeyedStatus.

(* ================================================================== *)
(** * Properties *)

(** ** Doubles: the sign of a difference *)
Module FloatFacts.
Local Open Scope Z_scope.

Lemma digits2_pos_bound (p : positive) :
  2 ^ (Zpos (digits2_pos p) - 1) <= Zpos p.
Proof.
  induction p as [p IH|p IH|]; cbn [digits2_pos]; [| |reflexivity].
  - rewrite Pos2Z.inj_succ, (Pos2Z.inj_xI p).
    replace (Z.succ (Zpos (digits2_pos p)) - 1) with (Z.succ (Zpos (digits2_pos p) - 1)) by lia.
    rewrite Z.pow_succ_r by lia. lia.
  - rewrite Pos2Z.inj_succ, (Pos2Z.inj_xO p).
    replace (Z.succ (Zpos (digits2_pos p)) - 1) with (Z.succ (Zpos (digits2_pos p) - 1)) by lia.
    rewrite Z.pow_succ_r. 2: pose proof (Pos2Z.is_pos (digits2_pos p)); lia. lia.
Qed.

Lemma shr_1_m (r : shr_record) : 0 <= shr_m r -> shr_m (shr_1 r) = shr_m r / 2.
Proof.
  destruct r as [m rr s]; cbn [shr_m]; intro H.
  destruct m as [|[p|p|]|p]; cbn; try reflexivity; try lia.
  - rewrite (Pos2Z.inj_xI p). apply (Z.div_unique _ _ _ 1); lia.
  - rewrite (Pos2Z.inj_xO p). apply (Z.div_unique _ _ _ 0); lia.
Qed.

Lemma iter_shr_1 (p : positive) : forall r, 0 <= shr_m r ->
  shr_m (iter_pos shr_1 p r) = shr_m r / 2 ^ Zpos p /\ 0 <= shr_m (iter_pos shr_1 p r).
Proof.
  induction p as [p IH|p IH|]; intros r Hr; cbn [iter_pos].
  - assert (H1 : 0 <= shr_m (shr_1 r)) by (rewrite shr_1_m by exact Hr; apply Z.div_pos; lia).
    destruct (IH _ H1) as [E1 P1]. destruct (IH _ P1) as [E2 P2].
    split; [|exact P2]. rewrite E2, E1, shr_1_m by exact Hr.
    rewrite !Z.div_div by (try apply Z.mul_pos_pos; lia).
    f_equal. rewrite (Pos2Z.inj_xI p).
    replace (2 * Zpos p + 1) with (Zpos p + Zpos p + 1) by lia.
    rewrite !Z.pow_add_r by lia. lia.
  - destruct (IH _ Hr) as [E1 P1]. destruct (IH _ P1) as [E2 P2].
    split; [|exact P2]. rewrite E2, E1.
    rewrite Z.div_div by lia. f_equal. rewrite (Pos2Z.inj_xO p).
    replace (2 * Zpos p) with (Zpos p + Zpos p) by lia.
    rewrite Z.pow_add_r by lia. reflexivity.
  - rewrite shr_1_m by exact Hr. split; [reflexivity|]. apply Z.div_pos; lia.
Qed.

Lemma shr_record_of_loc_m (m : Z) (l : location) : shr_m (shr_record_of_loc m l) = m.
Proof. destruct l as [|[| |]]; reflexivity. Qed.

Lemma shr_fexp_pos (m e : Z) (l : location) :
  0 < m -> emin <= e ->
  0 < shr_m (fst (shr_fexp prec emax m e l)) /\ e <= snd (shr_fexp prec emax m e l).
Proof.
  intros Hm He. unfold shr_fexp, shr.
  destruct m as [|p|p]; [lia| |lia]. cbn [Zdigits2].
  pose proof (digits2_pos_bound p) as Hd.
  unfold fexp, SpecFloat.emin, prec, emax in *.
  destruct (Z.max (Zpos (digits2_pos p) + e - 53) (3 - 1024 - 53) - e) as [|q|q] eqn:En;
    cbn [fst snd]; rewrite ?shr_record_of_loc_m; try lia.
  destruct (iter_shr_1 q (shr_record_of_loc (Zpos p) l)) as [E _];
    [rewrite shr_record_of_loc_m; lia|].
  rewrite E, shr_record_of_loc_m. split; [|lia].
  apply Z.div_str_pos. split; [apply Z.pow_pos_nonneg; lia|].
  eapply Z.le_trans; [|exact Hd]. apply Z.pow_le_mono_r; lia.
Qed.

Lemma round_nearest_even_ge (m : Z) (l : location) : m <= round_nearest_even m l.
Proof.
  destruct l as [|[| |]]; cbn; try lia. destruct (Z.even m); lia.
Qed.

(** Rounding a nonzero mantissa keeps its sign (it may overflow to an
    infinity of that sign, never to zero). *)
Lemma binary_round_signed (s : bool) (m : positive) (e : Z) :
  emin <= e -> sf_signed s (binary_round prec emax s m e).
Proof.
  intros He. unfold binary_round.
  destruct (shl_align m e (fexp prec emax (Zpos (digits2_pos m) + e))) as [mz ez] eqn:Ha.
  assert (Hez : emin <= ez).
  { unfold shl_align in Ha.
    destruct (fexp prec emax (Zpos (digits2_pos m) + e) - e) eqn:E;
      injection Ha as _ <-; try exact He.
    unfold fexp in *. lia. }
  unfold binary_round_aux.
  destruct (shr_fexp prec emax (Zpos mz) ez loc_Exact) as [mrs1 e1] eqn:H1.
  pose proof (shr_fexp_pos (Zpos mz) ez loc_Exact ltac:(lia) Hez) as [P1 Q1].
  rewrite H1 in P1, Q1. cbn [fst snd] in P1, Q1.
  pose proof (round_nearest_even_ge (shr_m mrs1) (loc_of_shr_record mrs1)) as R.
  destruct (shr_fexp prec emax (round_nearest_even (shr_m mrs1) (loc_of_shr_record mrs1)) e1 loc_Exact)
    as [mrs2 e2] eqn:H2.
  pose proof (shr_fexp_pos (round_nearest_even (shr_m mrs1) (loc_of_shr_record mrs1)) e1 loc_Exact
                ltac:(lia) ltac:(lia)) as [P2 _].
  rewrite H2 in P2. cbn [fst] in P2.
  destruct (shr_m mrs2); try lia.
  destruct (e2 <=? emax - prec); reflexivity.
Qed.

Lemma signed_ltb (s : bool) (x : spec_float) :
  sf_signed s x -> SFltb (S754_zero false) x = negb s.
Proof. destruct x; cbn; intro H; try contradiction; subst; destruct s; reflexivity. Qed.

Lemma normalize_ltb (D e : Z) :
  emin <= e ->
  SFltb (S754_zero false) (binary_normalize prec emax D e false) = (0 <? D).
Proof.
  intros He. destruct D as [|p|p]; cbn [binary_normalize].
  - reflexivity.
  - rewrite (signed_ltb false); [reflexivity|]. now apply binary_round_signed.
  - rewrite (signed_ltb true); [reflexivity|]. now apply binary_round_signed.
Qed.

Lemma iter_xO (m d : positive) : Zpos (Pos.iter xO m d) = Zpos m * 2 ^ Zpos d.
Proof.
  induction d as [|d IH] using Pos.peano_ind; [cbn [Pos.iter]; rewrite (Pos2Z.inj_xO m); lia|].
  rewrite Pos.iter_succ, (Pos2Z.inj_xO (Pos.iter xO m d)), IH, Pos2Z.inj_succ, Z.pow_succ_r by lia. lia.
Qed.

Lemma shl_align_fst (m : positive) (e ez : Z) :
  ez <= e -> Zpos (fst (shl_align m e ez)) = Zpos m * 2 ^ (e - ez).
Proof.
  intros H. unfold shl_align.
  destruct (ez - e) as [|d|d] eqn:E; cbn [fst].
  - replace (e - ez) with 0 by lia. lia.
  - lia.
  - rewrite iter_xO. f_equal. f_equal. lia.
Qed.

Lemma valid_emin (s : bool) (m : positive) (e : Z) :
  valid_binary (S754_finite s m e) = true -> emin <= e.
Proof.
  cbn. unfold bounded, canonical_mantissa. intros H.
  apply andb_prop in H as [H _]. apply Z.eqb_eq in H. rewrite <- H.
  unfold fexp, SpecFloat.emin, prec, emax. change IntDef.Z.max with Z.max. lia.
Qed.

Lemma cond_Zopp_mul (s : bool) (a b : Z) : cond_Zopp s (a * b) = cond_Zopp s a * b.
Proof. destruct s; cbn; lia. Qed.

Lemma two_pow_pos (e : Z) : (0 < Qpower (2#1) e)%Q.
Proof. apply Qpower_0_lt. reflexivity. Qed.

Lemma aligned_val (s : bool) (m : positive) (e ez : Z) :
  ez <= e ->
  (inject_Z (cond_Zopp s (Zpos (fst (shl_align m e ez)))) * Qpower (2#1) ez
   == inject_Z (cond_Zopp s (Zpos m)) * Qpower (2#1) e)%Q.
Proof.
  intros H. rewrite shl_align_fst by exact H. rewrite cond_Zopp_mul, inject_Z_mult.
  rewrite Zpower_Qpower by lia.
  replace e with ((e - ez) + ez) at 2 by lia.
  rewrite Qpower_plus by discriminate.
  change (inject_Z 2) with (2#1). ring.
Qed.

Lemma inject_pos_lt (m : positive) : (0 < inject_Z (Zpos m))%Q.
Proof. unfold Qlt; cbn; lia. Qed.

Lemma inject_neg_lt (m : positive) : (inject_Z (- Zpos m) < 0)%Q.
Proof. unfold Qlt; cbn; lia. Qed.

Lemma sf_val_finite_pos (s : bool) (m : positive) (e : Z) :
  (0 < sf_val (S754_finite s m e))%Q <-> s = false.
Proof.
  cbn [sf_val]. pose proof (two_pow_pos e) as P.
  destruct s; cbn [cond_Zopp]; split; intro H; try reflexivity; try discriminate.
  - exfalso. pose proof (inject_neg_lt m) as Hm.
    assert (0 < - inject_Z (- Zpos m) * Qpower (2#1) e)%Q
      by (apply Qmult_lt_0_compat; lra).
    lra.
  - apply Qmult_lt_0_compat; [try pose proof (inject_neg_lt m); try apply inject_pos_lt; lra|exact P].
Qed.

Lemma sf_val_finite_neg (s : bool) (m : positive) (e : Z) :
  (sf_val (S754_finite s m e) < 0)%Q <-> s = true.
Proof.
  cbn [sf_val]. pose proof (two_pow_pos e) as P.
  destruct s; cbn [cond_Zopp]; split; intro H; try reflexivity; try discriminate.
  - assert (0 < - inject_Z (- Zpos m) * Qpower (2#1) e)%Q
      by (apply Qmult_lt_0_compat; [try pose proof (inject_neg_lt m); try apply inject_pos_lt; lra|exact P]).
    lra.
  - exfalso. assert (0 < inject_Z (Zpos m) * Qpower (2#1) e)%Q
      by (apply Qmult_lt_0_compat; [try pose proof (inject_neg_lt m); try apply inject_pos_lt; lra|exact P]).
    lra.
Qed.

(** For finite doubles, [Y - X] rounds to a positive double exactly when
    [X < Y]: rounding to nearest never turns a nonzero difference into
    zero or flips its sign. *)
Lemma sf_sub_pos (X Y : spec_float) :
  valid_binary X = true -> valid_binary Y = true ->
  sf_finite X = true -> sf_finite Y = true ->
  (SFltb (S754_zero false) (SF64sub Y X) = true <-> (sf_val X < sf_val Y)%Q).
Proof.
  intros VX VY FX FY.
  destruct X as [sx| | |sx mx ex]; try discriminate FX;
  destruct Y as [sy| | |sy my ey]; try discriminate FY.
  - unfold SF64sub, SFsub. cbn [sf_val].
    destruct sx, sy; cbn; split; intro H; try discriminate; lra.
  - unfold SF64sub, SFsub. cbn [SFltb SFcompare].
    pose proof (sf_val_finite_pos sy my ey). cbn [sf_val] in *.
    destruct sy; cbn; split; intro H1; try discriminate; try reflexivity.
    + apply H in H1. discriminate.
    + apply H. reflexivity.
  - unfold SF64sub, SFsub. cbn [SFltb SFcompare].
    pose proof (sf_val_finite_neg sx mx ex). cbn [sf_val] in *.
    destruct sx; cbn; split; intro H1; try discriminate; try reflexivity.
    + apply H. reflexivity.
    + apply H in H1. discriminate.
  - apply valid_emin in VX, VY.
    unfold SF64sub, SFsub.
    rewrite normalize_ltb by lia.
    set (ez := Z.min ey ex).
    pose proof (aligned_val sy my ey ez ltac:(lia)) as Ay.
    pose proof (aligned_val sx mx ex ez ltac:(lia)) as Ax.
    pose proof (two_pow_pos ez) as P.
    cbn [sf_val].
    set (A := cond_Zopp sy (Zpos (fst (shl_align my ey ez)))) in *.
    set (B := cond_Zopp sx (Zpos (fst (shl_align mx ex ez)))) in *.
    rewrite <- Ay, <- Ax. rewrite Z.ltb_lt.
    split; intro H.
    + assert (Hd : (inject_Z B < inject_Z A)%Q) by (rewrite <- Zlt_Qlt; lia).
      apply Qmult_lt_r; assumption.
    + apply Qmult_lt_r in H; [|exact P]. rewrite <- Zlt_Qlt in H. lia.
Qed.

Lemma float_sub_pos (x y : float) :
  sf_finite (Prim2SF x) = true -> sf_finite (Prim2SF y) = true ->
  ((0 <? y - x)%float = true <-> (float_value x < float_value y)%Q).
Proof.
  intros Fx Fy. unfold float_value. rewrite ltb_spec, sub_spec.
  change (Prim2SF 0%float) with (S754_zero false).
  apply sf_sub_pos; auto using Prim2SF_valid.
Qed.

End FloatFacts.

(** ** Sorting *)

Lemma js_insert_perm {A : Type} (cmp : A -> A -> float) (x : A) (l : list A) :
  Permutation (js_insert cmp x l) (x :: l).
Proof.
  induction l as [|y ys IH]; simpl; [reflexivity|].
  destruct (js_pos (cmp x y)).
  - rewrite IH. apply perm_swap.
  - reflexivity.
Qed.

Lemma js_sort_perm {A : Type} (cmp : A -> A -> float) (l : list A) :
  Permutation (js_sort cmp l) l.
Proof.
  induction l as [|x xs IH]; simpl; [reflexivity|].
  rewrite js_insert_perm. now apply perm_skip.
Qed.

(** Sorting the images of a list is sorting the list, when the two
    comparators agree in sign on its elements. *)
Lemma js_sort_map {A B : Type} (g : A -> B) (c1 : B -> B -> float)
    (c2 : A -> A -> float) (l : list A) :
  (forall a b, In a l -> In b l -> js_pos (c1 (g a) (g b)) = js_pos (c2 a b)) ->
  js_sort c1 (map g l) = map g (js_sort c2 l).
Proof.
  induction l as [|x xs IH]; intros Hc; simpl; [reflexivity|].
  rewrite IH by (intros a b Ha Hb; apply Hc; right; assumption).
  assert (Hs : forall y, In y (js_sort c2 xs) -> In y xs)
    by (intros y Hy; exact (Permutation_in _ (js_sort_perm c2 xs) Hy)).
  revert Hs. generalize (js_sort c2 xs) as s.
  induction s as [|y ys IHs]; intros Hs; simpl; [reflexivity|].
  rewrite Hc by (left; reflexivity) || (right; apply Hs; left; reflexivity).
  destruct (js_pos (c2 x y)); simpl; [|reflexivity].
  rewrite IHs; [reflexivity|]. intros z Hz. apply Hs. right. exact Hz.
Qed.

Section SortFacts.
Context {A : Type}.
Variable f : A -> float.

Let fin (a : A) : Prop := sf_finite (Prim2SF (f a)) = true.
Let desc (a b : A) : Prop := (float_value (f b) <= float_value (f a))%Q.

Lemma js_pos_by_score (x y : A) :
  fin x -> fin y ->
  (js_pos (by_score_desc f x y) = true <-> (float_value (f x) < float_value (f y))%Q).
Proof. intros Fx Fy. apply FloatFacts.float_sub_pos; assumption. Qed.

Lemma js_insert_hd (x y : A) (l : list A) :
  desc y x -> HdRel desc y l -> HdRel desc y (js_insert (by_score_desc f) x l).
Proof.
  intros Hyx Hl. destruct l as [|z zs]; simpl.
  - now constructor.
  - destruct (js_pos (by_score_desc f x z)); constructor; [|exact Hyx].
    now inversion Hl.
Qed.

Lemma js_insert_sorted (x : A) (l : list A) :
  fin x -> Forall fin l ->
  Sorted desc l -> Sorted desc (js_insert (by_score_desc f) x l).
Proof.
  intros Fx. induction l as [|y ys IH]; intros Fl Hs; simpl.
  - repeat constructor.
  - apply Forall_cons_iff in Fl as [Fy Fys].
    apply Sorted_inv in Hs as [Hys Hhd].
    destruct (js_pos (by_score_desc f x y)) eqn:E.
    + apply (js_pos_by_score _ _ Fx Fy) in E. constructor; [now apply IH|].
      apply js_insert_hd; [unfold desc; now apply Qlt_le_weak | exact Hhd].
    + assert (Hle : desc x y).
      { unfold desc. apply Qnot_lt_le. intro Hlt.
        apply (js_pos_by_score _ _ Fx Fy) in Hlt. congruence. }
      constructor; [now constructor|]. now constructor.
Qed.

Lemma js_sort_sorted (l : list A) :
  Forall fin l -> Sorted desc (js_sort (by_score_desc f) l).
Proof.
  induction l as [|x xs IH]; intros Fl; simpl; [constructor|].
  apply Forall_cons_iff in Fl as [Fx Fxs].
  apply js_insert_sorted; [exact Fx| |now apply IH].
  apply Forall_forall. intros y Hy.
  apply (Permutation_in _ (js_sort_perm _ xs)) in Hy.
  exact (proj1 (Forall_forall _ _) Fxs y Hy).
Qed.

Lemma js_insert_stable (v : Q) (x : A) (l : list A) :
  fin x -> Forall fin l ->
  filter (fun e => Qeq_bool (float_value (f e)) v) (js_insert (by_score_desc f) x l)
  = filter (fun e => Qeq_bool (float_value (f e)) v) (x :: l).
Proof.
  intros Fx. induction l as [|y ys IH]; intros Fl; simpl; [reflexivity|].
  apply Forall_cons_iff in Fl as [Fy Fys].
  destruct (js_pos (by_score_desc f x y)) eqn:E; [|reflexivity].
  apply (js_pos_by_score _ _ Fx Fy) in E. simpl. rewrite (IH Fys). simpl.
  destruct (Qeq_bool (float_value (f x)) v) eqn:Ex,
           (Qeq_bool (float_value (f y)) v) eqn:Ey; try reflexivity.
  apply Qeq_bool_iff in Ex, Ey.
  exfalso. apply (Qlt_irrefl (float_value (f x))).
  rewrite Ex at 2. rewrite <- Ey. exact E.
Qed.

Lemma js_sort_stable (v : Q) (l : list A) :
  Forall fin l ->
  filter (fun e => Qeq_bool (float_value (f e)) v) (js_sort (by_score_desc f) l)
  = filter (fun e => Qeq_bool (float_value (f e)) v) l.
Proof.
  induction l as [|x xs IH]; intros Fl; simpl; [reflexivity|].
  apply Forall_cons_iff in Fl as [Fx Fxs].
  rewrite js_insert_stable; [simpl; now rewrite IH|exact Fx|].
  apply Forall_forall. intros y Hy.
  apply (Permutation_in _ (js_sort_perm _ xs)) in Hy.
  exact (proj1 (Forall_forall _ _) Fxs y Hy).
Qed.
End SortFacts.

(** ** Discovery agent *)
Module DiscoveryFacts.
Import Discovery.

(** The [map] of [fallbackCategorySelection], when it does not throw:
    its non-[null] results are the scored entries its guard lets
    through, none of which is [null], and [includes] answered on every
    entry. *)
Lemma score_entries_some (now : Z) (ex : soft_value) (pc : potential)
    (mapped : list (option scored)) :
  map_or_throw (score_entry now ex) pc = Some mapped ->
  keep_some mapped = map (entry_scored now) (filter (kept ex) pc) /\
  (forall e, In e (filter (kept ex) pc) ->
     soft_includes ex (fst e) = Some false /\ snd e <> None).
Proof.
  revert mapped. induction pc as [|[t d] r IH]; intros mapped H; simpl in H.
  - injection H as <-. split; [reflexivity|]. intros e [].
  - destruct (soft_includes ex t) as [[|]|] eqn:Ei; [| |discriminate H].
    + destruct (map_or_throw (score_entry now ex) r) as [ys|] eqn:Er; [|discriminate H].
      injection H as <-. simpl.
      assert (Hk : kept ex (t, d) = false) by (unfold kept; simpl; now rewrite Ei).
      rewrite Hk. exact (IH ys eq_refl).
    + destruct d as [o|]; [|discriminate H].
      destruct (map_or_throw (score_entry now ex) r) as [ys|] eqn:Er; [|discriminate H].
      injection H as <-. simpl.
      assert (Hk : kept ex (t, Some o) = true) by (unfold kept; simpl; now rewrite Ei).
      rewrite Hk. destruct (IH ys eq_refl) as [IH1 IH2]. simpl. rewrite IH1.
      split; [reflexivity|].
      intros e [<-|He]; [split; [exact Ei|discriminate]|exact (IH2 e He)].
Qed.

(** Conversely, the [map] does not throw when [includes] answers on every
    entry and no entry it lets through is [null]. *)
Lemma score_entries_total (now : Z) (ex : soft_value) (pc : potential) :
  (forall e, In e pc -> soft_includes ex (fst e) <> None) ->
  (forall e, In e (filter (kept ex) pc) -> snd e <> None) ->
  exists mapped, map_or_throw (score_entry now ex) pc = Some mapped.
Proof.
  induction pc as [|[t d] r IH]; intros Hi Hn; simpl; [eexists; reflexivity|].
  destruct IH as [ys Hys].
  - intros e He. apply Hi. right. exact He.
  - intros e He. apply Hn. simpl. destruct (kept ex (t, d)); [right|]; exact He.
  - rewrite Hys.
    pose proof (Hi (t, d) (or_introl eq_refl)) as Ht. simpl in Ht.
    destruct (soft_includes ex t) as [[|]|] eqn:Ei; [| |contradiction].
    + eexists; reflexivity.
    + destruct d as [o|]; [eexists; reflexivity|].
      exfalso. apply (Hn (t, None)); [|reflexivity].
      simpl. unfold kept at 1. simpl. rewrite Ei. left. reflexivity.
Qed.

(** The result of [fallbackCategorySelection], when it does not throw. *)
Lemma fallback_some (now : Z) (pc : potential) (ex : soft_value) (m : nat)
    (sel : list string) :
  fallbackCategorySelection now pc ex m = Some sel ->
  sel = map fst (firstn m (js_sort (by_score_desc (fun e => sc_totalScore (entry_scored now e)))
                                   (filter (kept ex) pc))) /\
  (forall e, In e (filter (kept ex) pc) ->
     soft_includes ex (fst e) = Some false /\ snd e <> None).
Proof.
  unfold fallbackCategorySelection.
  destruct (map_or_throw (score_entry now ex) pc) as [mapped|] eqn:H; [|discriminate].
  intros E. injection E as <-.
  destruct (score_entries_some _ _ _ _ H) as [H1 H2]. split; [|exact H2].
  rewrite H1.
  rewrite (js_sort_map (entry_scored now) _
             (by_score_desc (fun e => sc_totalScore (entry_scored now e))))
    by reflexivity.
  rewrite firstn_map, map_map. reflexivity.
Qed.

Lemma entry_score_scored (now : Z) (e : string * option observation) :
  snd e <> None -> entry_score now e = sc_totalScore (entry_scored now e).
Proof. destruct e as [t [o|]]; [reflexivity|]. intros H. now exfalso. Qed.

Lemma kept_array (ex : list string) (e : string * option observation) :
  kept (SoftArray ex) e = negb (includes ex (fst e)).
Proof. unfold kept. simpl. now destruct (includes ex (fst e)). Qed.

Lemma finite_not_null (now : Z) (e : string * option observation) :
  sf_finite (Prim2SF (entry_score now e)) = true -> snd e <> None.
Proof. destruct e as [t [o|]]; [discriminate|]. intros H. discriminate H. Qed.

(** Counterexample to claim C2: two candidates whose scores by the
    formula are both exactly 0.6 (X: seen last 98 days ago, over no
    time; Y: seen last 100 days ago, over 1.5 days) are not kept in
    input order: the code computes 0.6 for X and 0.6000000000000001
    for Y in doubles, and ranks Y first. *)
Lemma exact_tie_broken_by_rounding :
  let now := (200 * day)%Z in
  let oX := {| obs_count := None; obs_firstSeen := Some (102 * day)%Z;
               obs_lastSeen := Some (102 * day)%Z |} in
  let oY := {| obs_count := None; obs_firstSeen := Some (100 * day - 3 * day / 2)%Z;
               obs_lastSeen := Some (100 * day)%Z |} in
  spec_totalScore now oX == 3 # 5 /\ spec_totalScore now oY == 3 # 5 /\
  fallbackCategorySelection now [("X", Some oX); ("Y", Some oY)] (SoftArray []) 5
  = Some ["Y"; "X"].
Proof. vm_compute. repeat split; reflexivity. Qed.

(** Claim C2, as amended. The fallback scorer keeps the candidates not
    in [existingSoftCategories] and computes for each the [totalScore] of
    §4.4 in doubles, as the code evaluates it. When every such score is
    finite, it returns the terms of the first [maxTerms] elements of a
    permutation of the candidates sorted by descending score in which
    candidates of equal (double) score keep their input order. On the
    example of the design, A (count 10, first seen 10 days ago, last
    seen now; score 39) ranks above B (count 3, first and last seen 3
    days ago; score 30.6). *)
Theorem fallback_scorer_double_order :
  (forall (now : Z) (pc : potential) (ex : list string) (maxTerms : nat),
    let C := filter (fun e => negb (includes ex (fst e))) pc in
    (forall e, In e C -> sf_finite (Prim2SF (entry_score now e)) = true) ->
    exists S,
      Permutation S C /\
      Sorted (fun a b => float_value (entry_score now b) <= float_value (entry_score now a)) S /\
      (forall v, filter (fun e => Qeq_bool (float_value (entry_score now e)) v) S
                 = filter (fun e => Qeq_bool (float_value (entry_score now e)) v) C) /\
      fallbackCategorySelection now pc (SoftArray ex) maxTerms
      = Some (map fst (firstn maxTerms S)))
  /\
  (let now := (10 * day)%Z in
   let oA := {| obs_count := Some 10%float; obs_firstSeen := Some 0%Z;
                obs_lastSeen := Some (10 * day)%Z |} in
   let oB := {| obs_count := Some 3%float; obs_firstSeen := Some (7 * day)%Z;
                obs_lastSeen := Some (7 * day)%Z |} in
   spec_totalScore now oA == 39 /\ spec_totalScore now oB == 153 # 5 /\
   fallbackCategorySelection now [("B", Some oB); ("A", Some oA)] (SoftArray []) 5
   = Some ["A"; "B"]).
Proof.
  split.
  - intros now pc ex maxTerms C Hfin.
    assert (HC : C = filter (kept (SoftArray ex)) pc).
    { unfold C. apply filter_ext. intros e. now rewrite kept_array. }
    assert (Hnn : forall e, In e C -> snd e <> None)
      by (intros e He; exact (finite_not_null now e (Hfin e He))).
    exists (js_sort (by_score_desc (entry_score now)) C).
    split; [apply js_sort_perm|].
    assert (FC : Forall (fun e => sf_finite (Prim2SF (entry_score now e)) = true) C)
      by (apply Forall_forall; exact Hfin).
    split; [exact (js_sort_sorted (entry_score now) C FC)|].
    split; [intro v; exact (js_sort_stable (entry_score now) v C FC)|].
    destruct (score_entries_total now (SoftArray ex) pc) as [mapped Hm].
    + intros e _. discriminate.
    + rewrite <- HC. exact Hnn.
    + unfold fallbackCategorySelection at 1. rewrite Hm.
      pose proof (fallback_some now pc (SoftArray ex) maxTerms) as Hs.
      unfold fallbackCategorySelection in Hs. rewrite Hm in Hs.
      destruct (Hs _ eq_refl) as [Hsel _]. rewrite Hsel, <- HC.
      assert (Hx : js_sort (by_score_desc (fun e => sc_totalScore (entry_scored now e))) C
                   = js_sort (by_score_desc (entry_score now)) C).
      { pose proof (js_sort_map (fun e => e)
                      (by_score_desc (fun e => sc_totalScore (entry_scored now e)))
                      (by_score_desc (entry_score now)) C) as Hj.
        rewrite !map_id in Hj. apply Hj.
        intros a b Ha Hb. unfold by_score_desc.
        rewrite (entry_score_scored now a (Hnn a Ha)),
                (entry_score_scored now b (Hnn b Hb)). reflexivity. }
      rewrite Hx. reflexivity.
  - vm_compute. repeat split; reflexivity.
Qed.

Lemma fallback_scorer_double_order_witness :
  exists S,
    Permutation S [("a", obs1); ("b", obs1)] /\
    fallbackCategorySelection 0%Z [("a", obs1); ("b", obs1)] (SoftArray []) 5
    = Some (map fst (firstn 5 S)).
Proof.
  destruct (proj1 fallback_scorer_double_order 0%Z [("a", obs1); ("b", obs1)] [] 5%nat)
    as [S [HP [_ [_ HF]]]].
  - intros e He. cbn in He. destruct He as [<-|[<-|[]]]; vm_compute; reflexivity.
  - exists S. split; [exact HP|exact HF].
Defined.

(** Claim C1 (code bug). With [existingCategories = ["existing1"]] and an
    oracle answering [{"selectedTerms": ["new1", "existing1"]}],
    [processSingleUser] takes the oracle's terms unfiltered: both are
    reported as selected and the soft-category list handed to
    [reprocessProducts] is [["existing1"; "new1"; "existing1"]]. *)
Theorem oracle_terms_not_filtered :
  processSingleUser true (OracleJSON (Some ["new1"; "existing1"])) 0
    {| u_dbName := "shop"; u_potentialSoftCategories :=
         Some [("new1", obs1); ("existing1", obs1)];
       u_softCategories := Some (SoftArray ["existing1"]);
       u_categories := None; u_type := None |}
  = Success ["new1"; "existing1"]
      {| p_dbName := "shop"; p_categories := []; p_userTypes := [];
         p_softCategories := ["existing1"; "new1"; "existing1"];
         p_incrementalSoftCategories := ["new1"; "existing1"] |} 1 3.
Proof. reflexivity. Qed.


Lemma analyze_fallback (ai : bool) (reply : oracle_reply) (now : Z)
    (pc : potential) (ex : soft_value) (m : nat) :
  ai = false \/ reply = OracleError ->
  analyzePotentialCategories ai reply now pc ex m = fallbackCategorySelection now pc ex m.
Proof.
  intros [-> | ->]; unfold analyzePotentialCategories; [reflexivity|].
  destruct ai; [|reflexivity]. simpl.
  destruct (existsb is_null_entry pc); [reflexivity|].
  destruct ex; reflexivity.
Qed.


Lemma filter_new_none (ex : soft_value) (pc : potential) :
  filter_new ex pc = None -> exists e, In e pc /\ soft_includes ex (fst e) = None.
Proof.
  induction pc as [|[t d] r IH]; simpl; [discriminate|].
  destruct (soft_includes ex t) as [b|] eqn:Ei.
  - destruct (filter_new ex r) eqn:Er; [discriminate|].
    intros _. destruct (IH eq_refl) as [e [He Hn]]. exists e. split; [right|]; assumption.
  - intros _. exists (t, d). split; [left; reflexivity|exact Ei].
Qed.





End DiscoveryFacts.

(** ** Job status store and reprocess routes *)
Module JobFacts.
Import Jobs Reprocess.

(** Claim C7. For a database with no job record (and a reachable
    store), [getJobState] returns the synthesized default
    [{state: "idle", progress: 0, done: 0, total: 0}], never an error. *)
Theorem getJobState_absent_is_idle (s : store) (dbName : string) :
  s dbName = None ->
  getJobState true s dbName
  = Ok {| jr_state := "idle"; jr_progress := 0; jr_done := 0; jr_total := 0;
          jr_updatedAt := None |}.
Proof. intro H. unfold getJobState. now rewrite H. Qed.

Lemma getJobState_absent_is_idle_witness :
  empty_store "shop" = None /\
  getJobState true empty_store "shop"
  = Ok {| jr_state := "idle"; jr_progress := 0; jr_done := 0; jr_total := 0;
          jr_updatedAt := None |}.
Proof.
  split; [reflexivity|]. apply getJobState_absent_is_idle. reflexivity.
Defined.

(** Claim C4 (code bug). Starting a reprocess run for any database
    writes [{state: "running", progress: 0, done: 0, total: 0}], and its
    normal completion writes [{state: "done", progress: 0, done: 0,
    total: 0}]: no write carries the number of work items, and
    [reprocessProducts] writes no progress. For a database with one
    product, the run starts with [total = 0], not 1, and completes with
    [progress = 0, done = 0, total = 0], not [100, 1, 1]. *)
Theorem reprocess_writes_no_counts :
  (forall (now : Z) (st : sys) (dbName : string),
    dbName <> "" ->
    jobs (step now st (EvReprocess dbName)) dbName
    = Some {| jr_state := "running"; jr_progress := 0; jr_done := 0;
              jr_total := 0; jr_updatedAt := Some now |} /\
    jobs (step now st (EvFinish dbName)) dbName
    = Some {| jr_state := "done"; jr_progress := 0; jr_done := 0;
              jr_total := 0; jr_updatedAt := Some now |}) /\
  length (products st0 "shop") = 1%nat /\
  jobs (run_events 0 st0 [EvReprocess "shop"; EvFinish "shop"]) "shop"
  = Some {| jr_state := "done"; jr_progress := 0; jr_done := 0;
            jr_total := 0; jr_updatedAt := Some 0%Z |}.
Proof.
  split; [|split; vm_compute; reflexivity].
  intros now st dbName Hne. simpl.
  unfold reprocess_post, processReprocessInBackground, setJobState; simpl.
  apply String.eqb_neq in Hne. rewrite Hne. simpl.
  now rewrite String.eqb_refl.
Qed.

Lemma reprocess_writes_no_counts_witness :
  jobs (step 5 st0 (EvReprocess "shop")) "shop"
  = Some {| jr_state := "running"; jr_progress := 0; jr_done := 0;
            jr_total := 0; jr_updatedAt := Some 5%Z |}.
Proof.
  apply (proj1 (proj1 reprocess_writes_no_counts 5%Z st0 "shop" ltac:(discriminate))).
Defined.

Lemma step_keeps_no_locks (now : Z) (st : sys) (ev : event) :
  locks st = [] -> locks (step now st ev) = [].
Proof.
  intro H. destruct ev as [db|ok db|db]; simpl; try assumption.
  - unfold reprocess_post. destruct (String.eqb db ""); exact H.
  - unfold stop_post. rewrite H. simpl. exact H.
Qed.

Lemma run_events_keeps_no_locks (now : Z) (evs : list event) :
  forall st, locks st = [] -> locks (run_events now st evs) = [].
Proof.
  induction evs as [|ev evs IH]; intros st H; [exact H|].
  simpl. apply IH. now apply step_keeps_no_locks.
Qed.

(** Claim C5 (code bug). No route creates the lock file the runner is
    documented to check, and [reprocessProducts] never consults it: from
    a state with no lock file, every sequence of requests and completions
    leaves none. On the failing input (a reprocess run for a one-product
    database, a stop request before the item is processed, then the run's
    completion) the stop reports "already stopped" and the final state is
    [done], not [stopped]. *)
Theorem stop_before_checkpoint_not_honoured :
  (forall now evs st, locks st = [] -> locks (run_events now st evs) = []) /\
  fst (stop_post 0 true "shop" (step 0 st0 (EvReprocess "shop")))
    = RespMessage 200 "Process already stopped or finished." /\
  option_map jr_state
    (jobs (run_events 0 st0 [EvReprocess "shop"; EvStop true "shop";
                             EvFinish "shop"]) "shop")
    = Some "done".
Proof.
  split; [intros; now apply run_events_keeps_no_locks|].
  split; reflexivity.
Qed.

Lemma unlink_absent (path : string) (files : list string) :
  existsb (String.eqb path) (unlink path files) = false.
Proof.
  induction files as [|f fs IH]; simpl; [reflexivity|].
  destruct (String.eqb path f) eqn:E; simpl; [exact IH|].
  rewrite E. exact IH.
Qed.

Lemma stop_post_absent (now : Z) (ok : bool) (dbName : string) (st : sys) :
  existsb (String.eqb (lockFilePath dbName)) (locks st) = false ->
  stop_post now ok dbName st
  = (RespMessage 200 "Process already stopped or finished.", st).
Proof. intro H. unfold stop_post. now rewrite H. Qed.

Lemma stop_post_removes_lock (now : Z) (ok : bool) (dbName : string) (st : sys) :
  existsb (String.eqb (lockFilePath dbName))
          (locks (snd (stop_post now ok dbName st))) = false.
Proof.
  unfold stop_post.
  destruct (existsb (String.eqb (lockFilePath dbName)) (locks st)) eqn:E.
  - destruct ok; cbn [snd locks]; apply unlink_absent.
  - exact E.
Qed.

Lemma stop_post_body_absent (dbName : string) (st : sys) :
  dbName <> "" ->
  existsb (String.eqb (lockFilePath dbName)) (locks st) = false ->
  stop_post_body (Some dbName) st
  = (RespMessage 200 "Process already stopped or finished.", st).
Proof.
  intros Hne H. unfold stop_post_body.
  apply String.eqb_neq in Hne. now rewrite Hne, H.
Qed.

Lemma stop_post_body_removes_lock (dbName : string) (st : sys) :
  dbName <> "" ->
  existsb (String.eqb (lockFilePath dbName))
          (locks (snd (stop_post_body (Some dbName) st))) = false.
Proof.
  intro Hne. unfold stop_post_body.
  apply String.eqb_neq in Hne. rewrite Hne.
  destruct (existsb (String.eqb (lockFilePath dbName)) (locks st)) eqn:E.
  - cbn [snd locks]. apply unlink_absent.
  - exact E.
Qed.

(** Claim C6. Requesting a stop is idempotent, in both variants of the
    stop route: when the lock file of [dbName] is absent the request
    succeeds with "Process already stopped or finished." and changes
    nothing; and whatever the first of two consecutive requests does
    (including a failed [setJobState]), the second reports "already
    stopped". *)
Theorem stop_idempotent :
  (forall now ok dbName st,
     existsb (String.eqb (lockFilePath dbName)) (locks st) = false ->
     stop_post now ok dbName st
     = (RespMessage 200 "Process already stopped or finished.", st)) /\
  (forall now ok1 ok2 dbName st,
     fst (stop_post now ok2 dbName (snd (stop_post now ok1 dbName st)))
     = RespMessage 200 "Process already stopped or finished.") /\
  (forall dbName st, dbName <> "" ->
     existsb (String.eqb (lockFilePath dbName)) (locks st) = false ->
     stop_post_body (Some dbName) st
     = (RespMessage 200 "Process already stopped or finished.", st)) /\
  (forall dbName st, dbName <> "" ->
     fst (stop_post_body (Some dbName) (snd (stop_post_body (Some dbName) st)))
     = RespMessage 200 "Process already stopped or finished.").
Proof.
  repeat split.
  - apply stop_post_absent.
  - intros now ok1 ok2 dbName st.
    now rewrite stop_post_absent by apply stop_post_removes_lock.
  - apply stop_post_body_absent.
  - intros dbName st Hne.
    rewrite stop_post_body_absent; [reflexivity|exact Hne|].
    now apply stop_post_body_removes_lock.
Qed.

Lemma stop_idempotent_witness :
  existsb (String.eqb (lockFilePath "shop")) (locks st0) = false /\
  stop_post 0 true "shop" st0
  = (RespMessage 200 "Process already stopped or finished.", st0) /\
  "shop" <> "" /\
  stop_post_body (Some "shop") st0
  = (RespMessage 200 "Process already stopped or finished.", st0) /\
  fst (stop_post_body (Some "shop") (snd (stop_post_body (Some "shop") st0)))
  = RespMessage 200 "Process already stopped or finished.".
Proof.
  split; [reflexivity|].
  split; [apply (proj1 stop_idempotent); reflexivity|].
  split; [discriminate|].
  split.
  - apply (proj1 (proj2 (proj2 stop_idempotent))); [discriminate|reflexivity].
  - apply (proj2 (proj2 (proj2 stop_idempotent))). discriminate.
Defined.

End JobFacts.

(** ** Onboarding *)
Module OnboardingFacts.
Import Json Onboarding.

Lemma js_or_js_or (a b c : jsval) :
  js_or (js_or a b) c = if truthy a then a else js_or b c.
Proof. unfold js_or at 2. destruct (truthy a) eqn:E; [|reflexivity]. now unfold js_or; rewrite E. Qed.

(** Counterexample to claim C8: on re-onboarding, the payload's
    [platform] and [userEmail] are ignored in favour of the stored ones,
    and a falsy payload value such as [syncMode: ""] does not override
    the stored value. *)
Lemma reonboard_payload_not_all_override :
  f_platform (reonboard_fields [("platform", JStr "woocommerce")] stored_user)
    = JStr "shopify" /\
  f_userEmail (reonboard_fields [("userEmail", JStr "v@y")] stored_user)
    = JStr "u@x" /\
  f_syncMode (reonboard_fields [("syncMode", JStr "")] stored_user)
    = JStr "full".
Proof. repeat split. Qed.

(** Claim C8, as amended. On re-onboarding, syncMode, categories, type,
    softCategories, context and the credential fields of the stored
    platform take the payload value when it is truthy ([explain]: when
    it is defined) and the stored value otherwise ([syncMode] defaulting
    to "full", the arrays to []); an array is replaced, never merged.
    [userEmail] and [platform] always come from the stored record, and so
    does [dbName] whenever the stored record has one. On the example of
    the design, stored [{categories: ["a","b"], syncMode: "full"}] with
    payload [{syncMode: "image"}] gives [categories: ["a","b"]] and
    [syncMode: "image"]. *)
Theorem reonboard_merge (body stored : obj) :
  let f := reonboard_fields body stored in
  let creds := get stored "credentials" in
  let pick k dflt := if truthy (get body k) then get body k else dflt in
  f_syncMode f = pick "syncMode" (js_or (get stored "syncMode") (JStr "full")) /\
  f_categories f = pick "categories" (js_or (getv creds "categories") (JArr [])) /\
  f_type f = pick "type" (js_or (getv creds "type") (JArr [])) /\
  f_softCategories f
    = pick "softCategories" (js_or (getv creds "softCategories") (JArr [])) /\
  f_context f = pick "context" (get stored "context") /\
  f_explain f = (if is_undefined (get body "explain") then get stored "explain"
                 else get body "explain") /\
  (strict_eqb (f_platform f) (JStr "shopify") = true ->
     f_shopifyDomain f = pick "shopifyDomain" (getv creds "shopifyDomain") /\
     f_shopifyToken f = pick "shopifyToken" (getv creds "shopifyToken")) /\
  (strict_eqb (f_platform f) (JStr "shopify") = false ->
     f_wooUrl f = pick "wooUrl" (getv creds "wooUrl") /\
     f_wooKey f = pick "wooKey" (getv creds "wooKey") /\
     f_wooSecret f = pick "wooSecret" (getv creds "wooSecret")) /\
  (forall body', f_userEmail (reonboard_fields body' stored) = get stored "email" /\
                 f_platform (reonboard_fields body' stored) = f_platform f) /\
  (truthy (js_or (get stored "dbName") (getv creds "dbName")) = true ->
     forall body', f_dbName (reonboard_fields body' stored)
                   = js_or (get stored "dbName") (getv creds "dbName")) /\
  (let ex := reonboard_fields [("syncMode", JStr "image")] stored_user in
   f_categories ex = JArr [JStr "a"; JStr "b"] /\ f_syncMode ex = JStr "image").
Proof.
  cbv zeta beta. unfold reonboard_fields.
  cbn [f_syncMode f_categories f_type f_softCategories f_context f_explain
       f_shopifyDomain f_shopifyToken f_wooUrl f_wooKey f_wooSecret
       f_userEmail f_platform f_dbName].
  repeat split; intros;
    try match goal with H : strict_eqb _ _ = _ |- _ => rewrite H end;
    rewrite ?js_or_js_or;
    first [reflexivity | destruct (is_undefined (get body "explain")); reflexivity].
Qed.

Lemma reonboard_merge_witness :
  strict_eqb (f_platform (reonboard_fields [] stored_user)) (JStr "shopify") = true /\
  f_shopifyDomain (reonboard_fields [] stored_user) = JStr "s.myshopify.com" /\
  truthy (js_or (get stored_user "dbName")
                (getv (get stored_user "credentials") "dbName")) = true /\
  f_dbName (reonboard_fields [("dbName", JStr "other")] stored_user) = JStr "shop".
Proof.
  split; [reflexivity|].
  split; [apply (proj1 (proj1 (proj2 (proj2 (proj2 (proj2 (proj2 (proj2
                  (reonboard_merge [] stored_user))))))) eq_refl))|].
  split; [reflexivity|].
  exact (proj1 (proj2 (proj2 (proj2 (proj2 (proj2 (proj2 (proj2 (proj2 (proj2
          (reonboard_merge [] stored_user)))))))))) eq_refl [("dbName", JStr "other")]).
Defined.

(** *** Field access after [$set] *)

Lemma get_set (o : obj) (k k' : string) (v : jsval) :
  get (set o k v) k' = if String.eqb k k' then v else get o k'.
Proof.
  unfold get. induction o as [|[k0 v0] r IH]; simpl.
  - destruct (String.eqb k k'); reflexivity.
  - destruct (String.eqb k0 k) eqn:E; simpl.
    + apply String.eqb_eq in E; subst k0.
      destruct (String.eqb k k'); reflexivity.
    + destruct (String.eqb k0 k') eqn:E'; simpl.
      * apply String.eqb_eq in E'; subst k'.
        rewrite String.eqb_sym, E. reflexivity.
      * exact IH.
Qed.

Lemma strict_eqb_eq (a b : jsval) : strict_eqb a b = true -> a = b.
Proof.
  destruct a, b; simpl; intros H; try discriminate; try reflexivity;
    f_equal; first [apply Bool.eqb_prop | apply Z.eqb_eq | apply String.eqb_eq];
    exact H.
Qed.

Lemma find_app_some {A : Type} (p : A -> bool) (l1 l2 : list A) (x : A) :
  find p l1 = Some x -> find p (l1 ++ l2) = Some x.
Proof.
  induction l1 as [|y r IH]; simpl; [discriminate|].
  destruct (p y); [exact (fun H => H)|exact IH].
Qed.

(** Computes [get] on a [$set] with literal keys. *)
Ltac get_literal_keys :=
  unfold update_tail, set_all; cbn [app fold_left fst snd];
  rewrite ?get_set; reflexivity.

Lemma tail_email (ev : env) (f : fields) (b : bool) (o : obj) :
  get (set_all o (update_tail ev f b)) "email" = get o "email".
Proof. destruct b; get_literal_keys. Qed.

Lemma tail_no_trial (ev : env) (f : fields) (o : obj) :
  get (set_all o (update_tail ev f false)) "trialStartedAt" = get o "trialStartedAt".
Proof. get_literal_keys. Qed.

Lemma tail_complete (ev : env) (f : fields) (b : bool) (o : obj) :
  get (set_all o (update_tail ev f b)) "onboardingComplete" = JBool true.
Proof. destruct b; get_literal_keys. Qed.

Lemma keyed_email (ev : env) (f : fields) (b : bool) (v a : jsval) (o : obj) :
  get (set_all o (([("email", v); ("apiKey", a)] ++ update_tail ev f b)%list)) "email" = v.
Proof. destruct b; get_literal_keys. Qed.

Lemma keyed_no_trial (ev : env) (f : fields) (v a : jsval) (o : obj) :
  get (set_all o (([("email", v); ("apiKey", a)] ++ update_tail ev f false)%list))
    "trialStartedAt" = get o "trialStartedAt".
Proof. get_literal_keys. Qed.

Lemma keyed_complete (ev : env) (f : fields) (b : bool) (v a : jsval) (o : obj) :
  get (set_all o (([("email", v); ("apiKey", a)] ++ update_tail ev f b)%list))
    "onboardingComplete" = JBool true.
Proof. destruct b; get_literal_keys. Qed.

(** *** [findOne] after an upsert keyed on [email] *)

Lemma findOne_update_first (U U' : collection) (v w : jsval) (upd x : obj) :
  (forall d, strict_eqb (get d "email") v = true ->
     get (set_all d upd) "email" = get d "email") ->
  update_first "email" v upd U = Some U' ->
  findOne U "email" w = Some x ->
  findOne U' "email" w = Some (if strict_eqb (get x "email") v then set_all x upd else x).
Proof.
  intros H1. revert U'. unfold findOne.
  induction U as [|d r IH]; intros U' Hu Hf; simpl in Hu, Hf; [discriminate|].
  destruct (strict_eqb (get d "email") v) eqn:Ev.
  - injection Hu as <-. simpl. rewrite (H1 d Ev).
    destruct (strict_eqb (get d "email") w) eqn:Ew.
    + injection Hf as <-. rewrite Ev. reflexivity.
    + rewrite Hf.
      destruct (strict_eqb (get x "email") v) eqn:Exv; [|reflexivity].
      exfalso. apply find_some in Hf as [_ Hxw].
      apply strict_eqb_eq in Exv. apply strict_eqb_eq in Hxw.
      rewrite <- Hxw, Exv in Ew. congruence.
  - destruct (update_first "email" v upd r) as [r'|]; simpl in Hu; [|discriminate].
    injection Hu as <-. simpl.
    destruct (strict_eqb (get d "email") w).
    + injection Hf as <-. rewrite Ev. reflexivity.
    + apply IH; [reflexivity|exact Hf].
Qed.

Lemma upsert_keeps_trial (U : collection) (v : jsval) (upd : obj) (e : string) (x : obj) :
  (forall d, strict_eqb (get d "email") v = true ->
     get (set_all d upd) "email" = get d "email") ->
  (forall d, In d U -> strict_eqb (get d "email") v = true ->
     get (set_all d upd) "trialStartedAt" = get d "trialStartedAt") ->
  findOne U "email" (JStr e) = Some x ->
  trial_of (upsert U "email" v upd) e = trial_of U e.
Proof.
  intros H1 H2 Hf. unfold trial_of, upsert. rewrite Hf.
  destruct (update_first "email" v upd U) as [U'|] eqn:Eu.
  - rewrite (findOne_update_first U U' v (JStr e) upd x H1 Eu Hf).
    destruct (strict_eqb (get x "email") v) eqn:Exv; [|reflexivity].
    apply H2; [|exact Exv].
    unfold findOne in Hf. exact (proj1 (find_some _ _ Hf)).
  - unfold findOne in *. rewrite (find_app_some _ _ _ _ Hf). reflexivity.
Qed.

(** *** The invariant: every record has completed onboarding *)

Lemma update_first_complete (U U' : collection) (v : jsval) (upd : obj) :
  (forall o, get (set_all o upd) "onboardingComplete" = JBool true) ->
  all_complete U -> update_first "email" v upd U = Some U' -> all_complete U'.
Proof.
  unfold all_complete. intros H3 HU. revert U'.
  induction HU as [|d r Hd Hr IH]; intros U' Hu; simpl in Hu; [discriminate|].
  destruct (strict_eqb (get d "email") v).
  - injection Hu as <-. constructor; [rewrite H3; reflexivity|exact Hr].
  - destruct (update_first "email" v upd r) as [r'|]; simpl in Hu; [|discriminate].
    injection Hu as <-. constructor; [exact Hd|apply IH; reflexivity].
Qed.

Lemma upsert_complete (U : collection) (v : jsval) (upd : obj) :
  (forall o, get (set_all o upd) "onboardingComplete" = JBool true) ->
  all_complete U -> all_complete (upsert U "email" v upd).
Proof.
  intros H3 HU. unfold upsert.
  destruct (update_first "email" v upd U) as [U'|] eqn:Eu.
  - exact (update_first_complete U U' v upd H3 HU Eu).
  - unfold all_complete in *. apply Forall_app. split; [exact HU|].
    constructor; [rewrite H3; reflexivity|constructor].
Qed.

Lemma complete_not_first (U : collection) (d : obj) :
  all_complete U -> In d U -> first_time (Some d) = false.
Proof.
  unfold all_complete. intros HU Hd. rewrite Forall_forall in HU.
  unfold first_time. rewrite (HU d Hd). reflexivity.
Qed.

Lemma complete_findOne_not_first (U : collection) (v : jsval) (d : obj) :
  all_complete U -> In d U -> strict_eqb (get d "email") v = true ->
  first_time (findOne U "email" v) = false.
Proof.
  intros HU Hd Hv. destruct (findOne U "email" v) as [d'|] eqn:E.
  - unfold findOne in E. exact (complete_not_first U d' HU (proj1 (find_some _ _ E))).
  - unfold findOne in E. exfalso.
    apply (find_none _ _ E) in Hd. congruence.
Qed.

(** *** What one request does to [users] *)

Lemma after_upsert_users (ev : env) (dbName : jsval) (users : collection) :
  o_users (after_upsert ev dbName users) = users.
Proof.
  unfold after_upsert. destruct (negb (indexes_ok ev)); [reflexivity|].
  destruct (sync_ok ev); reflexivity.
Qed.

Ltac split_handler :=
  repeat (cbv beta iota zeta;
          match goal with
          | |- context [if ?c then _ else _] => destruct c
          | |- context [match validate_platform ?a ?b with _ => _ end] =>
              destruct (validate_platform a b)
          end; try (left; reflexivity)).

Lemma onboard_users (ev : env) (body : obj) (U : collection) :
  o_users (onboard ev body U) = U \/
  o_users (onboard ev body U) =
    upsert U "email" (get body "userEmail")
      (update_tail ev (body_fields body (get body "userEmail"))
         (first_time (findOne U "email" (get body "userEmail")))).
Proof.
  unfold onboard. split_handler.
  right. rewrite after_upsert_users. reflexivity.
Qed.

Lemma onboard_apikey_users (ev : env) (h q he : jsval) (body : obj) (U : collection) :
  o_users (onboard_apikey ev h q he body U) = U \/
  exists f u0, o_users (onboard_apikey ev h q he body U) =
    upsert U "email" (f_userEmail f)
      (([("email", f_userEmail f); ("apiKey", js_or h q)]
        ++ update_tail ev f (first_time u0))%list) /\
    (u0 = findOne U "email" (f_userEmail f) \/ exists u, u0 = Some u /\ In u U).
Proof.
  unfold onboard_apikey. cbv zeta.
  destruct (truthy (js_or h q)) eqn:Ea.
  1: destruct (findOne U "apiKey" (js_or h q)) as [u|] eqn:Eu.
  1: split_handler; right; exists (reonboard_fields body u), (Some u);
    split; [rewrite after_upsert_users; reflexivity|];
    right; exists u; split; [reflexivity|];
    unfold findOne in Eu; exact (proj1 (find_some _ _ Eu)).
  all: split_handler; right;
    exists (body_fields body (js_or (get body "userEmail") he)),
      (findOne U "email" (js_or (get body "userEmail") he));
    split; [rewrite after_upsert_users; reflexivity|left; reflexivity].
Qed.

Lemma handle_shape (r : request) (U : collection) :
  all_complete U ->
  o_users (handle r U) = U \/
  exists v upd, o_users (handle r U) = upsert U "email" v upd /\
    (forall d, strict_eqb (get d "email") v = true ->
       get (set_all d upd) "email" = get d "email") /\
    (forall d, In d U -> strict_eqb (get d "email") v = true ->
       get (set_all d upd) "trialStartedAt" = get d "trialStartedAt") /\
    (forall o, get (set_all o upd) "onboardingComplete" = JBool true).
Proof.
  intros HU. destruct r as [ev body|ev h q he body]; simpl.
  - destruct (onboard_users ev body U) as [E|E]; [left; exact E|right].
    eexists _, _. split; [exact E|].
    split; [intros d _; apply tail_email|].
    split; [|intros o; apply tail_complete].
    intros d Hd Hv. rewrite (complete_findOne_not_first U _ d HU Hd Hv).
    apply tail_no_trial.
  - destruct (onboard_apikey_users ev h q he body U) as [E|(f & u0 & E & Hu0)];
      [left; exact E|right].
    eexists _, _. split; [exact E|].
    split; [intros d Hv; rewrite keyed_email; symmetry; exact (strict_eqb_eq _ _ Hv)|].
    split; [|intros o; apply keyed_complete].
    intros d Hd Hv.
    assert (Hf : first_time u0 = false).
    { destruct Hu0 as [-> | (u & -> & Hu)].
      - exact (complete_findOne_not_first U _ d HU Hd Hv).
      - exact (complete_not_first U u HU Hu). }
    rewrite Hf. apply keyed_no_trial.
Qed.

Lemma handle_complete (r : request) (U : collection) :
  all_complete U -> all_complete (o_users (handle r U)).
Proof.
  intros HU. destruct (handle_shape r U HU) as [E|(v & upd & E & _ & _ & H3)];
    rewrite E; [exact HU|exact (upsert_complete U v upd H3 HU)].
Qed.

Lemma reachable_complete (U : collection) : reachable U -> all_complete U.
Proof.
  induction 1 as [|r U _ IH]; [constructor|exact (handle_complete r U IH)].
Qed.

Lemma handle_keeps_trial (r : request) (U : collection) (e : string) (x : obj) :
  all_complete U -> findOne U "email" (JStr e) = Some x ->
  trial_of (o_users (handle r U)) e = trial_of U e.
Proof.
  intros HU Hf.
  destruct (handle_shape r U HU) as [E|(v & upd & E & H1 & H2 & _)]; rewrite E;
    [reflexivity|exact (upsert_keeps_trial U v upd e x H1 H2 Hf)].
Qed.

(** Claim C9. On the [users] collections onboarding produces, one more
    onboarding request of either variant changes the [trialStartedAt] an
    identity's record shows only when no completed onboarding is on
    record for that identity, and never changes one that is set. *)
Theorem trial_start_set_once (U : collection) :
  reachable U ->
  forall (r : request) (e : string),
    (trial_of (o_users (handle r U)) e <> trial_of U e -> completed U e = false) /\
    (forall t, trial_of U e = JDate t -> trial_of (o_users (handle r U)) e = JDate t).
Proof.
  intros HR r e. pose proof (reachable_complete U HR) as HU.
  destruct (findOne U "email" (JStr e)) as [x|] eqn:Hf.
  - rewrite (handle_keeps_trial r U e x HU Hf). split; [intros H; congruence|].
    intros t Ht; exact Ht.
  - unfold completed, trial_of. rewrite Hf. split; [reflexivity|discriminate].
Qed.

Lemma trial_start_set_once_witness :
  let U1 := o_users (handle (ReqPlain ev_ok shopify_body) []) in
  let ev1 := {| now := 5; credentials_valid := true; indexes_ok := true;
                sync_ok := true; generated_key := "k0" |} in
  reachable U1 /\ trial_of U1 "u@x" = JDate 0 /\
  trial_of (o_users (handle (ReqPlain ev1 shopify_body) U1)) "u@x" = JDate 0.
Proof.
  cbv zeta. assert (HR : reachable (o_users (handle (ReqPlain ev_ok shopify_body) [])))
    by (apply reach_step; apply reach_nil).
  split; [exact HR|]. split; [vm_compute; reflexivity|].
  apply (proj2 (trial_start_set_once _ HR _ "u@x") 0%Z). vm_compute. reflexivity.
Defined.

(** Claim C10. In the API-key variant, a request with neither an
    [x-api-key] header nor an [api_key] query parameter whose fields and
    platform credentials validate reaches the assignment to the [const]
    [apiKey], which throws: the answer is 500, the [users] collection is
    unchanged and no job state is written. *)
Theorem apikey_missing_request_fails (ev : env) (hdrApiKey queryApiKey headerEmail : jsval)
    (body : obj) (users : collection) :
  truthy hdrApiKey = false -> truthy queryApiKey = false ->
  let f := body_fields body (js_or (get body "userEmail") headerEmail) in
  truthy (f_dbName f) = true -> truthy (f_userEmail f) = true ->
  validate_platform ev f = None ->
  onboard_apikey ev hdrApiKey queryApiKey headerEmail body users
  = {| o_status := 500; o_users := users; o_job_writes := [] |}.
Proof.
  intros Hh Hq. cbv zeta. intros Hdb Hem Hval.
  assert (Hk : js_or hdrApiKey queryApiKey = queryApiKey)
    by (unfold js_or; now rewrite Hh).
  unfold onboard_apikey. cbv beta zeta. rewrite Hk, Hq. cbv beta iota zeta.
  rewrite Hdb, Hem. cbv beta iota. rewrite Hval. reflexivity.
Qed.

Lemma apikey_missing_request_fails_witness :
  onboard_apikey ev_ok JUndefined JUndefined JUndefined shopify_body [stored_user]
  = {| o_status := 500; o_users := [stored_user]; o_job_writes := [] |}.
Proof.
  apply apikey_missing_request_fails; reflexivity.
Defined.

End OnboardingFacts.

(* ------------------------------------------------------------------ *)
(** ** More on the discovery agent *)
Module DiscoveryMore.
Import Discovery DiscoveryFacts.

Lemma in_firstn {A : Type} (n : nat) (l : list A) (x : A) :
  In x (firstn n l) -> In x l.
Proof.
  intros H. rewrite <- (firstn_skipn n l). apply in_or_app. left. exact H.
Qed.

Lemma NoDup_firstn' {A : Type} (n : nat) (l : list A) :
  NoDup l -> NoDup (firstn n l).
Proof.
  intros H. rewrite <- (firstn_skipn n l) in H. exact (NoDup_app_remove_r _ _ H).
Qed.

Lemma NoDup_map_filter {A B : Type} (g : A -> B) (keep : A -> bool) (xs : list A) :
  NoDup (map g xs) -> NoDup (map g (filter keep xs)).
Proof.
  induction xs as [|x xs IH]; cbn [map filter]; intros Hd; [constructor|].
  apply NoDup_cons_iff in Hd as [Hx Hxs].
  destruct (keep x); [|exact (IH Hxs)].
  cbn [map]. apply NoDup_cons; [|exact (IH Hxs)].
  intros Hin. apply Hx. apply in_map_iff in Hin as [y [Hy Hyf]].
  apply filter_In in Hyf. rewrite <- Hy. apply in_map. tauto.
Qed.

Lemma fallback_terms_in (now : Z) (pc : potential) (ex : soft_value)
    (maxTerms : nat) (sel : list string) (t : string) :
  fallbackCategorySelection now pc ex maxTerms = Some sel -> In t sel ->
  In t (map fst pc) /\ soft_includes ex t = Some false.
Proof.
  intros Hs H. destruct (fallback_some _ _ _ _ _ Hs) as [-> Hk].
  apply in_map_iff in H as [e [<- He]].
  apply in_firstn in He.
  apply (Permutation_in _ (js_sort_perm _ _)) in He.
  split; [|exact (proj1 (Hk e He))].
  apply filter_In in He as [He _]. apply in_map. exact He.
Qed.

Lemma fallback_length (now : Z) (pc : potential) (ex : soft_value) (maxTerms : nat)
    (sel : list string) :
  fallbackCategorySelection now pc ex maxTerms = Some sel ->
  (length sel <= maxTerms)%nat.
Proof.
  intros Hs. destruct (fallback_some _ _ _ _ _ Hs) as [-> _].
  rewrite length_map. apply firstn_le_length.
Qed.

(** [fallbackCategorySelection] returns at most [maxTerms] terms, each a
    key of [potentialCategories] that is not in [existingSoftCategories]
    (for which [existingSoftCategories.includes] answers [false]). *)
Theorem fallback_terms_fresh (now : Z) (pc : potential) (ex : soft_value)
    (maxTerms : nat) (sel : list string) :
  fallbackCategorySelection now pc ex maxTerms = Some sel ->
  (forall t, In t sel -> In t (map fst pc) /\ soft_includes ex t = Some false) /\
  (length sel <= maxTerms)%nat.
Proof.
  intros Hs. split; [intros t; apply (fallback_terms_in _ _ _ _ _ t Hs)|].
  exact (fallback_length _ _ _ _ _ Hs).
Qed.

Lemma fallback_terms_fresh_witness :
  (forall t, In t ["b"] -> In t (map fst [("a", obs1); ("b", obs1)]) /\
     soft_includes (SoftArray ["a"]) t = Some false) /\
  (length ["b"] <= 5)%nat.
Proof.
  apply (fallback_terms_fresh 0 [("a", obs1); ("b", obs1)] (SoftArray ["a"]) 5).
  vm_compute. reflexivity.
Defined.

(** The keys of a JavaScript object are distinct, and so are the terms
    [fallbackCategorySelection] returns. *)
Theorem fallback_terms_distinct (now : Z) (pc : potential) (ex : soft_value)
    (maxTerms : nat) (sel : list string) :
  NoDup (map fst pc) -> fallbackCategorySelection now pc ex maxTerms = Some sel ->
  NoDup sel.
Proof.
  intros H Hs. destruct (fallback_some _ _ _ _ _ Hs) as [-> _].
  rewrite <- firstn_map.
  apply NoDup_firstn'.
  apply (Permutation_NoDup (Permutation_sym (Permutation_map fst (js_sort_perm _ _)))).
  apply NoDup_map_filter. exact H.
Qed.

Lemma fallback_terms_distinct_witness :
  NoDup ["a"; "b"].
Proof.
  apply (fallback_terms_distinct 0 [("a", obs1); ("b", obs1)] (SoftArray []) 5).
  - vm_compute.
    constructor; [intros [H|H]; [discriminate|exact H]|].
    constructor; [intros []|constructor].
  - vm_compute. reflexivity.
Defined.

(** When the oracle is not configured, or its call fails, the terms
    [processSingleUser] selects are not in the user's soft categories,
    at most 5 of them are appended to those categories in the payload,
    and [newCount] is [previousCount] plus their number. *)
Theorem fallback_selection_disjoint (ai : bool) (reply : oracle_reply) (now : Z)
    (u : user) (sel : list string) (p : reprocess_payload) (prev new : nat) :
  ai = false \/ reply = OracleError ->
  processSingleUser ai reply now u = Success sel p prev new ->
  (forall t, In t sel -> soft_includes (soft_or_empty (u_softCategories u)) t = Some false) /\
  p_softCategories p = (opt_list (u_softCategories u) ++ sel)%list /\
  new = (prev + length sel)%nat /\ (length sel <= 5)%nat.
Proof.
  intros Hai H. unfold processSingleUser in H.
  destruct (u_potentialSoftCategories u) as [pc|]; [|discriminate H].
  cbv zeta in H.
  destruct (filter_new (soft_or_empty (u_softCategories u)) pc) as [f|] eqn:Ef;
    [|discriminate H].
  destruct (Nat.eqb (length f) 0); [discriminate H|].
  rewrite analyze_fallback in H by exact Hai.
  destruct (fallbackCategorySelection now f (soft_or_empty (u_softCategories u)) 5)
    as [sel'|] eqn:Hs; [|discriminate H].
  destruct (Nat.eqb (length sel') 0); [discriminate H|].
  injection H as <- <- <- <-. simpl.
  split; [|split; [reflexivity|split; [reflexivity|exact (fallback_length _ _ _ _ _ Hs)]]].
  intros t Ht. exact (proj2 (fallback_terms_in _ _ _ _ _ _ Hs Ht)).
Qed.

Lemma fallback_selection_disjoint_witness :
  (forall t, In t ["new1"] -> soft_includes (SoftArray []) t = Some false) /\
  ["new1"] = ([] ++ ["new1"])%list /\ 1%nat = (0 + length ["new1"])%nat /\
  (length ["new1"] <= 5)%nat.
Proof.
  apply (fallback_selection_disjoint false OracleError 0 user1 ["new1"]
           {| p_dbName := "shop"; p_categories := []; p_userTypes := [];
              p_softCategories := ["new1"];
              p_incrementalSoftCategories := ["new1"] |} 0 1).
  - left. reflexivity.
  - vm_compute. reflexivity.
Defined.

(** A user all of whose potential terms are already soft categories is
    skipped with reason [no_new_terms], whatever the oracle would say. *)
Theorem nothing_new_is_skipped (ai : bool) (reply : oracle_reply) (now : Z)
    (u : user) (pc : potential) :
  u_potentialSoftCategories u = Some pc ->
  (forall e, In e pc -> soft_includes (soft_or_empty (u_softCategories u)) (fst e) = Some true) ->
  processSingleUser ai reply now u = Skipped "no_new_terms".
Proof.
  intros Hp Hall. unfold processSingleUser. rewrite Hp. cbv zeta.
  assert (Hf : filter_new (soft_or_empty (u_softCategories u)) pc = Some []).
  { clear Hp. induction pc as [|[t d] r IH]; [reflexivity|]. simpl.
    pose proof (Hall (t, d) (or_introl eq_refl)) as Ht. simpl in Ht.
    rewrite Ht, IH; [reflexivity|].
    intros e' He'. apply Hall. right. exact He'. }
  rewrite Hf. reflexivity.
Qed.

Lemma nothing_new_is_skipped_witness :
  processSingleUser true (OracleJSON (Some ["x"])) 0
    {| u_dbName := "shop"; u_potentialSoftCategories := Some [("a", obs1)];
       u_softCategories := Some (SoftArray ["a"]); u_categories := None;
       u_type := None |}
  = Skipped "no_new_terms".
Proof.
  apply (nothing_new_is_skipped _ _ _ _ [("a", obs1)]); [reflexivity|].
  intros e [<-|[]]. reflexivity.
Defined.

End DiscoveryMore.

(* ------------------------------------------------------------------ *)
(** ** Scheduler *)
Module SchedulerFacts.
Import Scheduler.
Local Open Scope Z_scope.

(** For any start time at least a day inside the range of valid dates,
    [getNextRunTime] is the first 02:00 UTC strictly after it: later
    than [now], at most one day later, at 2 h past a UTC midnight. *)
Theorem next_run_within_a_day (now : Z) :
  (Z.abs now + msPerDay <= 8640000000000000)%Z ->
  exists next, getNextRunTime now = Some next /\
    (now < next <= now + msPerDay)%Z /\ (next mod msPerDay = 7200000)%Z.
Proof.
  intros Hb. unfold getNextRunTime, setUTCHours, nextUTCDate, TimeClip, msPerDay in *.
  pose proof (Z.div_mod now 86400000 ltac:(discriminate)) as Hdm.
  pose proof (Z.mod_pos_bound now 86400000 ltac:(reflexivity)) as Hr.
  set (q := now / 86400000) in *. set (r := now mod 86400000) in *.
  replace (((2 * 60 + 0) * 60 + 0) * 1000 + 0) with 7200000 by reflexivity.
  rewrite (proj2 (Z.leb_le (Z.abs (q * 86400000 + 7200000)) 8640000000000000)) by lia.
  destruct (Z.leb_spec (q * 86400000 + 7200000) now) as [Hle|Hlt].
  - rewrite (proj2 (Z.leb_le _ _)) by lia.
    eexists. split; [reflexivity|]. split; [lia|].
    replace (q * 86400000 + 7200000 + 86400000) with (7200000 + (q + 1) * 86400000) by ring.
    rewrite Z_mod_plus_full. reflexivity.
  - eexists. split; [reflexivity|]. split; [lia|].
    replace (q * 86400000 + 7200000) with (7200000 + q * 86400000) by ring.
    rewrite Z_mod_plus_full. reflexivity.
Qed.

Lemma next_run_within_a_day_witness :
  exists next, getNextRunTime 1760000000000 = Some next /\
    (1760000000000 < next <= 1760000000000 + msPerDay)%Z /\ (next mod msPerDay = 7200000)%Z.
Proof.
  apply next_run_within_a_day. vm_compute. discriminate.
Defined.

End SchedulerFacts.

(* ------------------------------------------------------------------ *)
(** ** API keys *)
Module ApiKeyFacts.
Import ApiKey.

Lemma byte_of_hex_byte_hex (b : Byte.byte) : byte_of_hex (byte_hex b) = Some b.
Proof. destruct b; vm_compute; reflexivity. Qed.

Lemma byte_hex_digits (b : Byte.byte) :
  is_lower_hex (hex_digit (Byte.to_N b / 16)) && is_lower_hex (hex_digit (Byte.to_N b mod 16)) = true.
Proof. destruct b; vm_compute; reflexivity. Qed.

Lemma toString_hex_cons (b : Byte.byte) (r : list Byte.byte) :
  toString_hex (b :: r)
  = String (hex_digit (Byte.to_N b / 16)) (String (hex_digit (Byte.to_N b mod 16)) (toString_hex r)).
Proof. reflexivity. Qed.

Lemma toString_hex_length (bs : list Byte.byte) :
  String.length (toString_hex bs) = (2 * length bs)%nat.
Proof.
  induction bs as [|b r IH]; [reflexivity|].
  rewrite toString_hex_cons. simpl String.length. rewrite IH. simpl. lia.
Qed.

Lemma toString_hex_chars (bs : list Byte.byte) :
  all_chars is_lower_hex (toString_hex bs) = true.
Proof.
  induction bs as [|b r IH]; [reflexivity|].
  rewrite toString_hex_cons. simpl all_chars.
  rewrite IH, Bool.andb_true_r. apply byte_hex_digits.
Qed.

Lemma toString_hex_inj (bs bs' : list Byte.byte) :
  toString_hex bs = toString_hex bs' -> bs = bs'.
Proof.
  revert bs'. induction bs as [|b r IH]; intros [|b' r'] H; try reflexivity.
  - rewrite toString_hex_cons in H. discriminate H.
  - rewrite toString_hex_cons in H. discriminate H.
  - rewrite !toString_hex_cons in H. injection H as H1 H2 H3.
    assert (Hb : byte_hex b = byte_hex b') by (unfold byte_hex; rewrite H1, H2; reflexivity).
    apply (f_equal byte_of_hex) in Hb. rewrite !byte_of_hex_byte_hex in Hb.
    injection Hb as ->. f_equal. exact (IH r' H3).
Qed.

(** An API key made from the 32 bytes of [crypto.randomBytes(32)] is 64
    lowercase hexadecimal characters, and different bytes give different
    keys: the key keeps all 256 bits of the random buffer. *)
Theorem api_key_is_hex_of_bytes (bs : list Byte.byte) :
  length bs = 32%nat ->
  String.length (generateApiKey bs) = 64%nat /\
  all_chars is_lower_hex (generateApiKey bs) = true /\
  (forall bs', generateApiKey bs' = generateApiKey bs -> bs' = bs).
Proof.
  intros Hl. unfold generateApiKey.
  split; [rewrite toString_hex_length, Hl; reflexivity|].
  split; [apply toString_hex_chars|].
  intros bs'. apply toString_hex_inj.
Qed.

Lemma api_key_is_hex_of_bytes_witness :
  String.length (generateApiKey (repeat Byte.x2a 32)) = 64%nat /\
  all_chars is_lower_hex (generateApiKey (repeat Byte.x2a 32)) = true /\
  (forall bs', generateApiKey bs' = generateApiKey (repeat Byte.x2a 32) -> bs' = repeat Byte.x2a 32).
Proof. apply api_key_is_hex_of_bytes. reflexivity. Defined.

End ApiKeyFacts.

(* ------------------------------------------------------------------ *)
(** ** Status route *)
Module StatusFacts.
Import Jobs StatusRoute.
Local Open Scope Z_scope.

Lemma or_zero (z : Z) : (if Z.eqb z 0 then 0 else z) = z.
Proof. destruct (Z.eqb_spec z 0); [subst|]; reflexivity. Qed.

(** After [setJobState(dbName, state, progress, done, total)] with a
    non-empty [state], [GET /status?dbName=...] reports exactly those
    values; the status of every other database is unchanged. *)
Theorem status_reports_last_write (s : store) (now : Z) (db st : string)
    (p d t : Z) :
  db <> "" -> st <> "" ->
  status_get true (setJobState s now db st p d t) (Some db) = StatusOk st p d t /\
  (forall c db', db' <> db ->
     status_get c (setJobState s now db st p d t) (Some db') = status_get c s (Some db')).
Proof.
  intros Hdb Hst. split.
  - unfold status_get, setJobState. cbn [negb].
    rewrite (proj2 (String.eqb_neq _ _) Hdb), String.eqb_refl. cbn [jr_state jr_progress jr_done jr_total].
    rewrite (proj2 (String.eqb_neq _ _) Hst), !or_zero. reflexivity.
  - intros c db' Hne. unfold status_get, setJobState.
    rewrite (proj2 (String.eqb_neq _ _) Hne). reflexivity.
Qed.

Lemma status_reports_last_write_witness :
  status_get true (setJobState empty_store 0 "shop" "running" 40 2 5) (Some "shop")
  = StatusOk "running" 40 2 5 /\
  (forall c db', db' <> "shop" ->
     status_get c (setJobState empty_store 0 "shop" "running" 40 2 5) (Some db')
     = status_get c empty_store (Some db')).
Proof. apply status_reports_last_write; discriminate. Defined.

End StatusFacts.

(* ------------------------------------------------------------------ *)
(** ** Incremental soft categories *)
Module IncrementalFacts.
Import Json Auth Incremental OnboardingFacts.
Local Open Scope list_scope.

Lemma strict_eqb_sym (a b : jsval) : strict_eqb a b = strict_eqb b a.
Proof.
  destruct a, b; simpl; try reflexivity.
  - destruct b, b0; reflexivity.
  - apply Z.eqb_sym.
  - apply String.eqb_sym.
Qed.

Lemma dedupe_from_app (seen l1 l2 : list jsval) :
  dedupe_from seen (l1 ++ l2)
  = dedupe_from seen l1 ++ dedupe_from (rev (dedupe_from seen l1) ++ seen) l2.
Proof.
  revert seen. induction l1 as [|a r IH]; intros seen; [reflexivity|].
  simpl. destruct (existsb (strict_eqb a) seen); [apply IH|].
  rewrite IH. simpl. rewrite <- app_assoc. reflexivity.
Qed.

Lemma dedupe_from_incl (seen l : list jsval) (x : jsval) :
  In x (dedupe_from seen l) -> In x l.
Proof.
  revert seen. induction l as [|a r IH]; intros seen; simpl; [tauto|].
  destruct (existsb (strict_eqb a) seen); simpl.
  - intros H. right. exact (IH _ H).
  - intros [H|H]; [left; exact H|right; exact (IH _ H)].
Qed.

Lemma dedupe_from_fresh (seen l : list jsval) (x : jsval) :
  In x (dedupe_from seen l) -> existsb (strict_eqb x) seen = false.
Proof.
  revert seen. induction l as [|a r IH]; intros seen; simpl; [tauto|].
  destruct (existsb (strict_eqb a) seen) eqn:E; simpl.
  - apply IH.
  - intros [<-|H]; [exact E|].
    specialize (IH _ H). simpl in IH.
    apply Bool.orb_false_iff in IH. exact (proj2 IH).
Qed.

Lemma dedupe_from_distinct (seen l : list jsval) :
  ForallOrdPairs (fun a b => strict_eqb a b = false) (dedupe_from seen l).
Proof.
  revert seen. induction l as [|a r IH]; intros seen; simpl; [constructor|].
  destruct (existsb (strict_eqb a) seen); [apply IH|].
  constructor; [|apply IH].
  apply Forall_forall. intros b Hb.
  pose proof (dedupe_from_fresh _ _ _ Hb) as H. simpl in H.
  apply Bool.orb_false_iff in H. rewrite strict_eqb_sym. exact (proj1 H).
Qed.

Lemma dedupe_from_complete (seen l : list jsval) (x : jsval) :
  In x l -> strict_eqb x x = true ->
  (exists y, In y seen /\ strict_eqb x y = true) \/
  (exists y, In y (dedupe_from seen l) /\ strict_eqb y x = true).
Proof.
  revert seen. induction l as [|a r IH]; intros seen; simpl; [tauto|].
  intros Hin Hxx. destruct (existsb (strict_eqb a) seen) eqn:E.
  - destruct Hin as [<-|Hin]; [|exact (IH _ Hin Hxx)].
    left. apply existsb_exists in E. exact E.
  - destruct Hin as [<-|Hin].
    + right. exists a. simpl. auto.
    + destruct (IH (a :: seen) Hin Hxx) as [[y [[<-|Hy] Hxy]]|[y [Hy Hyx]]].
      * right. exists a. simpl. rewrite strict_eqb_sym. auto.
      * left. exists y. auto.
      * right. exists y. simpl. auto.
Qed.

Lemma dedupe_from_id (seen l : list jsval) :
  (forall x, In x l -> existsb (strict_eqb x) seen = false) ->
  ForallOrdPairs (fun a b => strict_eqb a b = false) l ->
  dedupe_from seen l = l.
Proof.
  revert seen. induction l as [|a r IH]; intros seen Hf Hd; [reflexivity|].
  inversion Hd as [|? ? Ha Hr]; subst. simpl.
  rewrite (Hf a (or_introl eq_refl)). f_equal. apply IH; [|exact Hr].
  intros x Hx. simpl. rewrite (Hf x (or_intror Hx)), Bool.orb_false_r.
  rewrite strict_eqb_sym. exact (proj1 (Forall_forall _ _) Ha x Hx).
Qed.

Lemma dedupe_from_covered (seen l : list jsval) :
  (forall x, In x l -> exists y, In y seen /\ strict_eqb x y = true) ->
  dedupe_from seen l = [].
Proof.
  induction l as [|a r IH]; intros Hc; [reflexivity|]. simpl.
  rewrite (proj2 (existsb_exists _ _) (Hc a (or_introl eq_refl))).
  apply IH. intros x Hx. exact (Hc x (or_intror Hx)).
Qed.

(** [mergedCategories] has no two strictly equal elements; it starts
    with the stored [softCategories] (each kept at its first occurrence,
    in order), holds only elements of the two arrays, and every string,
    number, boolean or null of either array is in it. *)
Theorem merged_categories_are_a_set (final inc : list jsval) :
  let m := merge_soft_categories final inc in
  ForallOrdPairs (fun a b => strict_eqb a b = false) m /\
  (exists rest, m = dedupe_from [] final ++ rest) /\
  (forall x, In x m -> In x (final ++ inc)) /\
  (forall x, In x (final ++ inc) -> strict_eqb x x = true ->
     exists y, In y m /\ strict_eqb y x = true).
Proof.
  cbv zeta. unfold merge_soft_categories.
  split; [apply dedupe_from_distinct|].
  split; [rewrite dedupe_from_app; eexists; reflexivity|].
  split; [apply dedupe_from_incl|].
  intros x Hx Hxx. destruct (dedupe_from_complete [] _ _ Hx Hxx) as [[y [[] _]]|H].
  exact H.
Qed.

(** Merging the same increment a second time adds nothing, when the
    increment holds primitive values such as category strings:
    [POST /api/reprocess] repeated with the same
    [incrementalSoftCategories] computes the same [mergedCategories]. *)
Theorem merge_increment_idempotent (final inc : list jsval) :
  (forall x, In x inc -> strict_eqb x x = true) ->
  merge_soft_categories (merge_soft_categories final inc) inc
  = merge_soft_categories final inc.
Proof.
  intros Hp. set (m := merge_soft_categories final inc).
  unfold merge_soft_categories at 1. rewrite dedupe_from_app.
  assert (Hm : dedupe_from [] m = m).
  { apply dedupe_from_id; [reflexivity|]. apply dedupe_from_distinct. }
  rewrite Hm, dedupe_from_covered, app_nil_r; [reflexivity|].
  intros x Hx.
  assert (Hx' : In x (final ++ inc)) by (apply in_or_app; right; exact Hx).
  destruct (dedupe_from_complete [] _ _ Hx' (Hp x Hx)) as [[y [[] _]]|[y [Hy Hyx]]].
  exists y. split; [rewrite app_nil_r; apply in_rev in Hy; exact Hy|].
  rewrite strict_eqb_sym. exact Hyx.
Qed.

Lemma merge_increment_idempotent_witness :
  merge_soft_categories (merge_soft_categories [JStr "a"; JStr "b"] [JStr "c"; JStr "a"])
    [JStr "c"; JStr "a"]
  = merge_soft_categories [JStr "a"; JStr "b"] [JStr "c"; JStr "a"].
Proof.
  apply merge_increment_idempotent.
  intros x [<-|[<-|[]]]; reflexivity.
Defined.

Lemma set_soft_same (d : obj) (x : jsval) : same_but_soft d (set_all d [("softCategories", x)]).
Proof.
  intros k Hk. unfold set_all. simpl. rewrite get_set.
  rewrite (proj2 (String.eqb_neq _ _) (not_eq_sym Hk)). reflexivity.
Qed.

Lemma same_but_soft_refl (l : collection) : Forall2 same_but_soft l l.
Proof. induction l; constructor; [intros k _; reflexivity|assumption]. Qed.

Lemma update_soft_same (v : jsval) (x : jsval) (users users' : collection) :
  update_first "dbName" v [("softCategories", x)] users = Some users' ->
  Forall2 same_but_soft users users'.
Proof.
  revert users'. induction users as [|d r IH]; intros users' H; simpl in H; [discriminate|].
  destruct (strict_eqb (get d "dbName") v).
  - injection H as <-. constructor; [apply set_soft_same|].
    apply same_but_soft_refl.
  - destruct (update_first "dbName" v [("softCategories", x)] r) as [r'|] eqn:E; [|discriminate].
    injection H as <-. constructor; [intros k _; reflexivity|exact (IH _ eq_refl)].
Qed.

Lemma findOne_same (users users' : collection) (k : string) (w : jsval) :
  Forall2 same_but_soft users users' -> k <> "softCategories" ->
  (findOne users k w = None /\ findOne users' k w = None) \/
  exists d d', findOne users k w = Some d /\ findOne users' k w = Some d' /\ same_but_soft d d'.
Proof.
  intros H Hk. unfold findOne. induction H as [|d d' r r' Hd Hr IH]; simpl; [left; auto|].
  rewrite (Hd k Hk). destruct (strict_eqb (get d k) w); [right; eauto|exact IH].
Qed.

Lemma auth_same (users users' : collection) (hdr q : jsval) (c : bool) (m : string) :
  Forall2 same_but_soft users users' ->
  authenticateRequest_v1 hdr q c users' = authenticateRequest_v1 hdr q c users /\
  authenticateRequest_v2 hdr q c users' = authenticateRequest_v2 hdr q c users /\
  authenticateRequest_v3 m hdr q c users' = authenticateRequest_v3 m hdr q c users.
Proof.
  intros H.
  unfold authenticateRequest_v1, authenticateRequest_v2, authenticateRequest_v3, lookup_user.
  destruct (findOne_same _ _ "apiKey" (js_or hdr q) H ltac:(discriminate))
    as [[-> ->]|[d [d' [-> [-> Hd]]]]]; [auto|].
  unfold req_user_of, resolved_dbName, resolved_platform.
  rewrite !(Hd _) by discriminate. auto.
Qed.

(** The [updateOne] that stores [mergedCategories] in the user's
    top-level [softCategories] is invisible to authentication: after it,
    every variant of [authenticateRequest] gives the same answer and the
    same [req.user] for every request as before. In particular the
    [credentials.softCategories] that the next reprocess request reads
    as [storedSoftCategories] is not changed by it. *)
Theorem incremental_update_invisible_to_auth (ok : bool) (dbName : jsval)
    (merged : list jsval) (users : collection) (hdr q : jsval) (c : bool) (m : string) :
  let users' := incremental_user_update ok dbName merged users in
  authenticateRequest_v1 hdr q c users' = authenticateRequest_v1 hdr q c users /\
  authenticateRequest_v2 hdr q c users' = authenticateRequest_v2 hdr q c users /\
  authenticateRequest_v3 m hdr q c users' = authenticateRequest_v3 m hdr q c users.
Proof.
  cbv zeta. apply auth_same. unfold incremental_user_update.
  destruct ok; [|apply same_but_soft_refl].
  destruct (update_first "dbName" dbName _ users) as [u'|] eqn:E;
    [exact (update_soft_same _ _ _ _ E)|apply same_but_soft_refl].
Qed.

End IncrementalFacts.

(* ------------------------------------------------------------------ *)
(** ** Shopify credential check *)
Module ShopifyFacts.
Import Json ShopifyCheck.

Lemma string_append_assoc (a b c : string) : (a ++ b) ++ c = a ++ (b ++ c).
Proof. induction a as [|x a IH]; simpl; [reflexivity|rewrite IH; reflexivity]. Qed.

Lemma all_chars_app (P : ascii -> bool) (a b : string) :
  ApiKey.all_chars P (a ++ b) = ApiKey.all_chars P a && ApiKey.all_chars P b.
Proof.
  induction a as [|x a IH]; simpl; [reflexivity|].
  rewrite IH, Bool.andb_assoc. reflexivity.
Qed.

Lemma strip_prefix_app (p r : string) : strip_prefix p (p ++ r) = Some r.
Proof.
  induction p as [|c p IH]; [reflexivity|]. simpl. rewrite Ascii.eqb_refl. exact IH.
Qed.

Lemma strip_prefix_some (p s r : string) : strip_prefix p s = Some r -> s = p ++ r.
Proof.
  revert s. induction p as [|c p IH]; intros s H.
  - simpl in H. injection H as <-. reflexivity.
  - destruct s as [|d s]; simpl in H; [discriminate H|].
    destruct (Ascii.eqb c d) eqn:E; [|discriminate H].
    apply Ascii.eqb_eq in E. subst d. simpl. f_equal. exact (IH s H).
Qed.

Lemma label_char_not (c d : ascii) :
  is_label_char d = false -> is_label_char c = true -> Ascii.eqb c d = false.
Proof.
  intros Hd Hc. destruct (Ascii.eqb c d) eqn:E; [|reflexivity].
  apply Ascii.eqb_eq in E. subst. congruence.
Qed.

Lemma label_no_colon (w : string) :
  label_rest_ok w = true -> ApiKey.all_chars (fun c => negb (Ascii.eqb c ":"%char)) w = true.
Proof.
  induction w as [|c w IH]; simpl; [reflexivity|].
  intros H. apply andb_prop in H as [Hc Hw].
  rewrite (label_char_not c ":"%char eq_refl Hc), IH by exact Hw. reflexivity.
Qed.

Lemma strip_protocol_id (s : string) :
  ApiKey.all_chars (fun c => negb (Ascii.eqb c ":"%char)) s = true -> strip_protocol s = s.
Proof.
  intros H. unfold strip_protocol.
  destruct (strip_prefix "https://" s) as [r|] eqn:E1.
  { apply strip_prefix_some in E1. subst s. simpl in H. discriminate H. }
  destruct (strip_prefix "http://" s) as [r|] eqn:E2; [|reflexivity].
  apply strip_prefix_some in E2. subst s. simpl in H. discriminate H.
Qed.

Lemma strip_trailing_slash_cons (c : ascii) (s : string) :
  s <> EmptyString -> strip_trailing_slash (String c s) = String c (strip_trailing_slash s).
Proof. destruct s; [contradiction|reflexivity]. Qed.

Lemma strip_trailing_slash_app (w t : string) :
  t <> EmptyString -> strip_trailing_slash (w ++ t) = w ++ strip_trailing_slash t.
Proof.
  intros Ht. induction w as [|c w IH]; [reflexivity|].
  change (String c w ++ t) with (String c (w ++ t)).
  rewrite strip_trailing_slash_cons, IH; [reflexivity|].
  destruct w; simpl; [exact Ht|discriminate].
Qed.

Lemma strip_trailing_slash_label (w : string) :
  label_rest_ok w = true -> strip_trailing_slash w = w.
Proof.
  induction w as [|c w IH]; intros H; [reflexivity|].
  simpl in H. apply andb_prop in H as [Hc Hw]. destruct w as [|c' w'].
  - simpl. rewrite (label_char_not c "/"%char eq_refl Hc). reflexivity.
  - rewrite strip_trailing_slash_cons, IH by (exact Hw || discriminate). reflexivity.
Qed.

Lemma prefix_refl (s : string) : String.prefix s s = true.
Proof.
  induction s as [|c s IH]; simpl; [reflexivity|].
  destruct (ascii_dec c c); [exact IH|contradiction].
Qed.

Lemma includes_sub_unfold (s sub : string) :
  includes_sub s sub
  = String.prefix sub s || match s with EmptyString => false | String _ s' => includes_sub s' sub end.
Proof. destruct s; reflexivity. Qed.

Lemma includes_sub_suffix (w t : string) : includes_sub (w ++ t) t = true.
Proof.
  induction w as [|c w IH].
  - rewrite includes_sub_unfold, prefix_refl. reflexivity.
  - change (String c w ++ t) with (String c (w ++ t)).
    rewrite includes_sub_unfold, IH, Bool.orb_true_r. reflexivity.
Qed.

Lemma includes_sub_label (w : string) :
  label_rest_ok w = true -> includes_sub w ".myshopify.com" = false.
Proof.
  induction w as [|c w IH]; intros H; [reflexivity|].
  simpl in H. apply andb_prop in H as [Hc Hw].
  rewrite includes_sub_unfold, (IH Hw), Bool.orb_false_r. cbn [String.prefix].
  destruct (ascii_dec "." c) as [<-|_]; [discriminate Hc|reflexivity].
Qed.

Lemma tail_suffix (w : string) :
  label_rest_ok w = true -> label_tail_then_suffix (w ++ ".myshopify.com") = true.
Proof.
  induction w as [|c w IH]; intros H; [reflexivity|].
  simpl in H. apply andb_prop in H as [Hc Hw].
  change (String c w ++ ".myshopify.com") with (String c (w ++ ".myshopify.com")).
  cbn [label_tail_then_suffix]. rewrite Hc, (IH Hw), Bool.orb_true_r. reflexivity.
Qed.

Lemma label_rest_of_shop (label : string) :
  shop_label_ok label = true -> label_rest_ok label = true.
Proof.
  destruct label as [|c r]; [discriminate|]. cbn [shop_label_ok label_rest_ok].
  intros H. apply andb_prop in H as [Hc Hr]. unfold is_label_char.
  rewrite Hc, Hr. reflexivity.
Qed.

Lemma domain_ok_label (label : string) :
  shop_label_ok label = true -> shopify_domain_ok (label ++ ".myshopify.com") = true.
Proof.
  destruct label as [|c r]; [discriminate|]. cbn [shop_label_ok].
  intros H. apply andb_prop in H as [Hc Hr].
  change (String c r ++ ".myshopify.com") with (String c (r ++ ".myshopify.com")).
  cbn [shopify_domain_ok]. rewrite Hc, (tail_suffix r Hr). reflexivity.
Qed.

Lemma tail_split (s : string) :
  label_tail_then_suffix s = true ->
  exists w, label_rest_ok w = true /\ s = w ++ ".myshopify.com".
Proof.
  induction s as [|c r IH]; intros H.
  - vm_compute in H. discriminate H.
  - cbn [label_tail_then_suffix] in H. apply Bool.orb_true_iff in H as [H|H].
    + apply String.eqb_eq in H. exists EmptyString. split; [reflexivity|exact H].
    + apply andb_prop in H as [Hc Hr]. destruct (IH Hr) as [w [Hw ->]].
      exists (String c w). split; [simpl; rewrite Hc, Hw; reflexivity|reflexivity].
Qed.

Lemma domain_ok_split (s : string) :
  shopify_domain_ok s = true ->
  exists label, shop_label_ok label = true /\ s = label ++ ".myshopify.com".
Proof.
  destruct s as [|c r]; [discriminate|]. cbn [shopify_domain_ok].
  intros H. apply andb_prop in H as [Hc Hr]. destruct (tail_split r Hr) as [w [Hw ->]].
  exists (String c w). split; [simpl; rewrite Hc, Hw; reflexivity|reflexivity].
Qed.

(** [validateShopifyCredentials] only ever sends the access token to
    [https://<shop>.myshopify.com/admin/api/2023-10/shop.json], for a shop
    name made of letters, digits and dashes starting with a letter or
    digit, whatever [domain] it is given; and it returns [true] only after
    such a request answered [ok] with a JSON body. *)
Theorem shopify_check_fetches_only_myshopify (domain token : jsval) (reply : fetch_reply) :
  (forall url, snd (validateShopifyCredentials domain token reply) = Some url ->
     exists label, shop_label_ok label = true /\
       url = "https://" ++ label ++ ".myshopify.com" ++ shop_json_path) /\
  (fst (validateShopifyCredentials domain token reply) = true ->
     reply = FetchReply true true /\ snd (validateShopifyCredentials domain token reply) <> None).
Proof.
  unfold validateShopifyCredentials.
  destruct (negb (truthy domain) || negb (truthy token)).
  { split; [intros url H; discriminate H|intros H; discriminate H]. }
  destruct domain as [| | | |d| | |];
    try (split; [intros url H; discriminate H|intros H; discriminate H]).
  cbv zeta.
  match goal with
  | |- context [shopify_domain_ok ?c] => destruct (shopify_domain_ok c) eqn:Ec
  end; cbn [negb];
    [|split; [intros url H; discriminate H|intros H; discriminate H]].
  split.
  - intros url H. cbn [snd] in H. injection H as <-.
    destruct (domain_ok_split _ Ec) as [label [Hl Hc]].
    exists label. split; [exact Hl|]. rewrite Hc, string_append_assoc. reflexivity.
  - cbn [fst snd]. intros H. destruct reply as [|ok json]; [discriminate H|].
    apply andb_prop in H as [-> ->]. split; [reflexivity|discriminate].
Qed.

Lemma validate_of_clean (d label : string) (token : jsval) (reply : fetch_reply) :
  truthy token = true -> shop_label_ok label = true -> d <> EmptyString ->
  (if includes_sub (strip_trailing_slash (strip_protocol d)) ".myshopify.com"
   then strip_trailing_slash (strip_protocol d)
   else strip_trailing_slash (strip_protocol d) ++ ".myshopify.com")
  = label ++ ".myshopify.com" ->
  validateShopifyCredentials (JStr d) token reply
  = (match reply with FetchThrows => false | FetchReply ok json => ok && json end,
     Some ("https://" ++ label ++ ".myshopify.com" ++ shop_json_path)).
Proof.
  intros Ht Hl Hd Hc. unfold validateShopifyCredentials.
  assert (Hs : truthy (JStr d) = true).
  { unfold truthy. rewrite (proj2 (String.eqb_neq _ _) Hd). reflexivity. }
  rewrite Hs, Ht. cbv zeta. cbn [negb orb].
  rewrite Hc, domain_ok_label by exact Hl. cbn [negb].
  rewrite string_append_assoc. reflexivity.
Qed.

(** A shop named [label] may be given as [label], [label.myshopify.com],
    [label.myshopify.com/], [https://label.myshopify.com] or
    [http://label.myshopify.com/]: [validateShopifyCredentials] treats
    them all alike, fetching the same shop URL over https. *)
Theorem shopify_domain_forms_agree (label : string) (token : jsval) (reply : fetch_reply) :
  shop_label_ok label = true -> truthy token = true ->
  forall d, In d [label; label ++ ".myshopify.com"; label ++ ".myshopify.com/";
                  "https://" ++ label ++ ".myshopify.com";
                  "http://" ++ label ++ ".myshopify.com/"] ->
  validateShopifyCredentials (JStr d) token reply
  = (match reply with FetchThrows => false | FetchReply ok json => ok && json end,
     Some ("https://" ++ label ++ ".myshopify.com" ++ shop_json_path)).
Proof.
  intros Hl Ht d Hd. pose proof (label_rest_of_shop _ Hl) as Hr.
  assert (Hne : forall t, label ++ t <> EmptyString)
    by (intros t; destruct label; [discriminate Hl|discriminate]).
  assert (Hnc : forall t, ApiKey.all_chars (fun c => negb (Ascii.eqb c ":"%char)) t = true ->
            ApiKey.all_chars (fun c => negb (Ascii.eqb c ":"%char)) (label ++ t) = true)
    by (intros t Ht'; rewrite all_chars_app, label_no_colon, Ht' by exact Hr; reflexivity).
  assert (Hsuf : forall t, t = ".myshopify.com" \/ t = ".myshopify.com/" ->
    (if includes_sub (strip_trailing_slash (label ++ t)) ".myshopify.com"
     then strip_trailing_slash (label ++ t)
     else strip_trailing_slash (label ++ t) ++ ".myshopify.com") = label ++ ".myshopify.com").
  { intros t Htt.
    rewrite strip_trailing_slash_app by (destruct Htt as [-> | ->]; discriminate).
    replace (strip_trailing_slash t) with ".myshopify.com"
      by (destruct Htt as [-> | ->]; reflexivity).
    rewrite includes_sub_suffix. reflexivity. }
  destruct Hd as [<-|[<-|[<-|[<-|[<-|[]]]]]];
    apply validate_of_clean; try assumption.
  - destruct label; [discriminate Hl|discriminate].
  - rewrite strip_protocol_id by exact (label_no_colon _ Hr).
    rewrite strip_trailing_slash_label, includes_sub_label by exact Hr. reflexivity.
  - apply Hne.
  - rewrite strip_protocol_id by (apply Hnc; reflexivity). apply Hsuf. left. reflexivity.
  - apply Hne.
  - rewrite strip_protocol_id by (apply Hnc; reflexivity). apply Hsuf. right. reflexivity.
  - simpl. discriminate.
  - unfold strip_protocol. rewrite strip_prefix_app. apply Hsuf. left. reflexivity.
  - simpl. discriminate.
  - unfold strip_protocol.
    replace (strip_prefix "https://" ("http://" ++ label ++ ".myshopify.com/")) with (@None string)
      by reflexivity.
    rewrite strip_prefix_app. apply Hsuf. right. reflexivity.
Qed.

Lemma shopify_domain_forms_agree_witness :
  validateShopifyCredentials (JStr ("http://" ++ "my-shop" ++ ".myshopify.com/"))
    (JStr "shpat_x") (FetchReply true true)
  = (true && true, Some ("https://" ++ "my-shop" ++ ".myshopify.com" ++ shop_json_path)).
Proof.
  apply (shopify_domain_forms_agree "my-shop" (JStr "shpat_x") (FetchReply true true));
    [reflexivity|reflexivity|].
  simpl. right. right. right. right. left. reflexivity.
Defined.

End ShopifyFacts.

(* ------------------------------------------------------------------ *)
(** ** Outcomes of the onboarding handler *)
Module OnboardingMore.
Import Json Onboarding OnboardingFacts.
Local Open Scope Z_scope.

(** A request either variant of the onboarding handler answers with 400
    (missing [dbName] or [userEmail], unknown platform) or 401 (missing
    or rejected platform credentials) has no effect: the [users]
    collection is unchanged and no job state is written. *)
Theorem onboarding_rejection_no_effect (r : request) (U : collection) :
  o_status (handle r U) = 400 \/ o_status (handle r U) = 401 ->
  o_users (handle r U) = U /\ o_job_writes (handle r U) = [].
Proof.
  destruct r as [ev body|ev h q he body]; cbn [handle];
    [unfold onboard|unfold onboard_apikey]; unfold after_upsert; cbv zeta;
    repeat (cbv beta iota;
            match goal with
            | |- context [if ?c then _ else _] => destruct c
            | |- context [match validate_platform ?a ?b with _ => _ end] =>
                destruct (validate_platform a b)
            | |- context [match findOne ?a ?b ?c with _ => _ end] =>
                destruct (findOne a b c)
            end);
    unfold early; cbn [o_status o_users o_job_writes];
    first [intros _; split; reflexivity | intros [H|H]; discriminate H].
Qed.

Lemma onboarding_rejection_no_effect_witness :
  o_users (handle (ReqPlain ev_ok [("userEmail", JStr "u@x")]) [stored_user]) = [stored_user] /\
  o_job_writes (handle (ReqPlain ev_ok [("userEmail", JStr "u@x")]) [stored_user]) = [].
Proof.
  apply onboarding_rejection_no_effect. left. reflexivity.
Defined.

End OnboardingMore.

(* ------------------------------------------------------------------ *)
(** ** Job status through the authentication middleware *)
Module KeyedStatusFacts.
Import Json Jobs Auth StatusRoute KeyedStatus.
Local Open Scope Z_scope.

(** For a user found by its API key whose record has no truthy top-level
    [dbName] but a non-empty string [credentials.dbName] [d], the status
    route of the API-key variant answers 400 ["missing dbName"] behind
    the third variant of [authenticateRequest]; behind the second variant
    it reports the job state of [d], the same one as
    [GET /status?dbName=d]. *)
Theorem keyed_status_needs_top_level_dbName (hdr q : jsval) (users : collection)
    (u : obj) (d : string) (s : store) :
  truthy (js_or hdr q) = true ->
  findOne users "apiKey" (js_or hdr q) = Some u ->
  truthy (get u "dbName") = false ->
  getv (get u "credentials") "dbName" = JStr d -> d <> "" ->
  status_get_keyed (authenticateRequest_v3 "GET" hdr q true users) true s = KMissingDbName /\
  exists st p dn t,
    status_get true s (Some d) = StatusOk st p dn t /\
    status_get_keyed (authenticateRequest_v2 hdr q true users) true s
    = KStatus st p dn t (get u "email") (resolved_platform u) (get u "onboardingComplete").
Proof.
  intros Hk Hf Hd Hc Hne. destruct d as [|c d']; [contradiction|].
  unfold authenticateRequest_v2, authenticateRequest_v3, lookup_user.
  rewrite Hk, Hf. cbn. rewrite Hd. split; [reflexivity|].
  unfold resolved_dbName, js_or. rewrite Hd, Hc. cbn.
  unfold status_get. cbn.
  destruct (s (String c d')) as [r|]; do 4 eexists; split; reflexivity.
Qed.

Lemma keyed_status_needs_top_level_dbName_witness :
  status_get_keyed
    (authenticateRequest_v3 "GET" (JStr "k") JUndefined true
       [[("apiKey", JStr "k"); ("email", JStr "a@b.c");
         ("credentials", JObj [("dbName", JStr "shop")])]])
    true (Jobs.setJobState Jobs.empty_store 0 "shop" "done" 100 3 3) = KMissingDbName /\
  exists st p dn t,
    status_get true (Jobs.setJobState Jobs.empty_store 0 "shop" "done" 100 3 3) (Some "shop")
    = StatusOk st p dn t /\
    status_get_keyed
      (authenticateRequest_v2 (JStr "k") JUndefined true
         [[("apiKey", JStr "k"); ("email", JStr "a@b.c");
           ("credentials", JObj [("dbName", JStr "shop")])]])
      true (Jobs.setJobState Jobs.empty_store 0 "shop" "done" 100 3 3)
    = KStatus st p dn t (JStr "a@b.c")
        (resolved_platform [("apiKey", JStr "k"); ("email", JStr "a@b.c");
                            ("credentials", JObj [("dbName", JStr "shop")])])
        JUndefined.
Proof.
  apply (keyed_status_needs_top_level_dbName _ _ _
           [("apiKey", JStr "k"); ("email", JStr "a@b.c");
            ("credentials", JObj [("dbName", JStr "shop")])] "shop");
    first [reflexivity | discriminate].
Defined.

End KeyedStatusFacts.
